(** * UniFi firmware browser: the firmware service

    A shallow embedding of [FirmwareService] (firmwareService.ts): the
    in-memory response cache, the query-string builder, the four query
    operations and the presentation helpers, with the properties of the
    service proved over the embedding.

    Conventions.
    - A JavaScript string is a Rocq [string]; every character stands for one
      UTF-16 code unit below 256 (exact on ASCII, which is what the catalogue
      carries: product names, platform codes, channels, identifiers).
    - A JavaScript number is an integer in [Z]; the service only ever tests
      numbers for zero, prints them in decimal and, in [formatFileSize],
      scales them by powers of 1024.
    - [undefined] is [None] of an [option].
    - An [async] method is a state transformer over the service state (the
      cache plus the log of requests sent) that ends in a value or in a thrown
      error; the remote end is an oracle consulted at each [fetch]. *)

From Stdlib Require Import ZArith Ascii Sorting.Sorted.
From Stdlib Require Import Numbers.DecimalString.
From Stdlib Require Numbers.DecimalZ Numbers.DecimalPos.
From stdpp Require Import gmap strings list.

Set Warnings "-register-all".
Local Open Scope Z_scope.

(** ** Thrown values and results *)

(** Everything the service throws or catches is an [Error] object: a name
    ([Error], [TypeError], [SyntaxError]) and a message. *)
Record js_error := JsError { err_name : string; err_message : string }.

Inductive result (A : Type) : Type :=
| Ok (a : A)
| Throw (e : js_error).
Arguments Ok {A} a.
Arguments Throw {A} e.

Definition TypeError (msg : string) : js_error := JsError "TypeError" msg.

(** ** JSON values *)

(** What [response.json()] produces. Objects keep their members in source
    order. *)
Inductive json : Type :=
| JNull
| JBool (b : bool)
| JNum (n : Z)
| JStr (s : string)
| JArr (items : list json)
| JObj (members : list (string * json)).

(** A JavaScript value that may be [undefined]. *)
Definition jsval : Type := option json.

(** [ToBoolean]: what [if (v)] and [v || w] test. *)
Definition truthy (v : json) : bool :=
  match v with
  | JNull => false
  | JBool b => b
  | JNum n => negb (n =? 0)
  | JStr s => negb (String.eqb s "")
  | JArr _ => true
  | JObj _ => true
  end.

(** ** The string primitives of the engine *)

(** [toLowerCase], [toUpperCase], [trim] and [localeCompare] are the
    JavaScript engine's (Unicode case mapping, ICU collation); the service is
    embedded over any implementation of them. *)
Class Engine := {
  toLowerCase : string -> string;
  toUpperCase : string -> string;
  trim : string -> string;
  localeCompare : string -> string -> comparison
}.

(** The one law of collation the sorting results rest on: if [a] sorts after
    [b] then [b] does not sort after [a]. *)
Class EngineLaws (E : Engine) : Prop := {
  localeCompare_asym :
    forall a b, localeCompare a b = Gt -> localeCompare b a <> Gt
}.

(** ** Strings *)

Fixpoint starts_with (p s : string) : bool :=
  match p, s with
  | EmptyString, _ => true
  | String a p', String b s' => Ascii.eqb a b && starts_with p' s'
  | String _ _, EmptyString => false
  end.

(** [hay.includes(needle)] *)
Fixpoint includes (needle hay : string) : bool :=
  starts_with needle hay ||
  match hay with
  | EmptyString => false
  | String _ hay' => includes needle hay'
  end.

(** [s.charAt(0)]: the first code unit as a string, or the empty string. *)
Definition charAt0 (s : string) : string :=
  match s with
  | EmptyString => ""
  | String c _ => String c ""
  end.

(** [s.slice(1)] *)
Definition slice1 (s : string) : string :=
  match s with
  | EmptyString => ""
  | String _ s' => s'
  end.

(** [xs.join(sep)] on an array of strings. *)
Fixpoint join (sep : string) (xs : list string) : string :=
  match xs with
  | [] => ""
  | [x] => x
  | x :: rest => x +:+ sep +:+ join sep rest
  end.

(** [n.toString()] for a safe integer (below 2^53 in magnitude): plain
    decimal digits with a leading minus sign. Above that the engine prints
    the shortest digits that read back as the same double, and from 10^21 on
    it prints an exponent; the properties that spell out digits are stated
    for safe integers. *)
Definition num_to_string (n : Z) : string :=
  NilZero.string_of_int (Z.to_int n).

(** ** The remote end *)

(** A response as [cachedFetch] looks at it: the status line and the outcome
    of [response.json()], which rejects when the body is not JSON. *)
Record response := Response {
  status : Z;
  statusText : string;
  body : result json
}.

(** [response.ok] is true exactly for the statuses 200 to 299. *)
Definition ok (r : response) : bool :=
  (200 <=? status r) && (status r <=? 299).

(** [fetch(url)] resolves to a response or rejects (transport failure). *)
Inductive fetch_outcome : Type :=
| Resolve (r : response)
| Reject (e : js_error).

(** The remote end answers a request knowing the requests sent before it, so
    the same URL may be answered differently over time. *)
Definition network : Type := list string -> string -> fetch_outcome.

(** ** Service state and the [async] monad *)

Record state := State {
  cache : gmap string json;   (* private cache = new Map<string, any>() *)
  requests : list string      (* every URL passed to fetch, oldest first *)
}.

Definition initial_state : state := State ∅ [].

Definition M (A : Type) : Type := state -> result A * state.

Definition ret {A} (a : A) : M A := fun st => (Ok a, st).
Definition throw {A} (e : js_error) : M A := fun st => (Throw e, st).
Definition bind {A B} (m : M A) (k : A -> M B) : M B :=
  fun st =>
    match m st with
    | (Ok a, st') => k a st'
    | (Throw e, st') => (Throw e, st')
    end.
(** [try { m } catch (error) { h error }] *)
Definition try_catch {A} (m : M A) (h : js_error -> M A) : M A :=
  fun st =>
    match m st with
    | (Ok a, st') => (Ok a, st')
    | (Throw e, st') => h e st'
    end.
(** Lift a synchronous computation that may throw. *)
Definition lift {A} (r : result A) : M A := fun st => (r, st).

Notation "x <- m ;; k" := (bind m (fun x => k))
  (at level 100, m at next level, right associativity).

(** ** The cache *)

(** A hit hands out the stored object itself. Values are immutable here: what
    a caller does to a response it was given (the search view sorts the
    embedded array in place) is outside the service. *)

Definition getCacheKey (url : string) : string := url.

(** [this.cache.get(key) || null] *)
Definition getCached (key : string) (st : state) : json :=
  match cache st !! key with
  | Some v => if truthy v then v else JNull
  | None => JNull
  end.

(** [this.cache.set(key, data)] *)
Definition setCache (key : string) (data : json) : M unit :=
  fun st => (Ok tt, State (<[key := data]> (cache st)) (requests st)).

(** [await fetch(url)]: the request is logged, then the oracle answers. *)
Definition fetch (net : network) (url : string) : M response :=
  fun st =>
    let st' := State (cache st) (requests st ++ [url]) in
    match net (requests st) url with
    | Resolve r => (Ok r, st')
    | Reject e => (Throw e, st')
    end.

Definition fetch_error_message (r : response) : string :=
  "Failed to fetch: " +:+ num_to_string (status r) +:+ " " +:+ statusText r.

Definition cachedFetch (net : network) (url : string) : M json :=
  let cacheKey := getCacheKey url in
  fun st =>
    let cached := getCached cacheKey st in
    if truthy cached then (Ok cached, st)
    else
      (r <- fetch net url ;;
       if negb (ok r) then throw (JsError "Error" (fetch_error_message r))
       else
         data <- lift (body r) ;;
         _ <- setCache cacheKey data ;;
         ret data) st.

(** ** URLSearchParams *)

(** UTF-8 bytes of one code unit below 256. *)
Definition utf8_of_unit (c : ascii) : list N :=
  let n := N_of_ascii c in
  if (n <? 128)%N then [n]
  else [N.lor 192 (N.shiftr n 6); N.lor 128 (N.land n 63)].

Definition hex_digit (n : N) : ascii :=
  if (n <? 10)%N then ascii_of_N (48 + n) else ascii_of_N (55 + n).

(** The bytes the application/x-www-form-urlencoded serializer leaves as they
    are: ASCII letters and digits, [*], [-], [.] and [_]. *)
Definition urlencoded_safe (b : N) : bool :=
  ((48 <=? b) && (b <=? 57) || (65 <=? b) && (b <=? 90) ||
   (97 <=? b) && (b <=? 122) ||
   (b =? 42) || (b =? 45) || (b =? 46) || (b =? 95))%N.

Definition urlencode_byte (b : N) : string :=
  if (b =? 32)%N then "+"
  else if urlencoded_safe b then String (ascii_of_N b) ""
  else String "%" (String (hex_digit (N.shiftr b 4))
                     (String (hex_digit (N.land b 15)) "")).

Fixpoint concat_strings (xs : list string) : string :=
  match xs with
  | [] => ""
  | x :: rest => x +:+ concat_strings rest
  end.

(** One code unit: its UTF-8 bytes, each percent-encoded. *)
Definition urlencode_unit (c : ascii) : string :=
  concat_strings (map urlencode_byte (utf8_of_unit c)).

Fixpoint urlencode (s : string) : string :=
  match s with
  | EmptyString => ""
  | String c s' => urlencode_unit c +:+ urlencode s'
  end.

(** [new URLSearchParams()] after some [append]s, and its [toString()]. *)
Definition URLSearchParams : Type := list (string * string).

Definition searchParams_toString (ps : URLSearchParams) : string :=
  join "&" (map (fun kv => urlencode kv.1 +:+ "=" +:+ urlencode kv.2) ps).

(** ** Query builder *)

Inductive operator : Type :=
| op_eq | op_ne | op_gt | op_gte | op_lt | op_lte | op_like | op_in.

Definition operator_to_string (o : operator) : string :=
  match o with
  | op_eq => "eq" | op_ne => "ne" | op_gt => "gt" | op_gte => "gte"
  | op_lt => "lt" | op_lte => "lte" | op_like => "like" | op_in => "in"
  end.

Record FilterCondition := {
  field : string;
  op : operator;
  value : string
}.

Record FirmwareFilters := {
  product : option string;
  platform : option string;
  channel : option string;
  version : option string;
  limit : option Z;
  offset : option Z;
  sort : option string
}.

(** [{}], the default [filters] argument. *)
Definition no_filters : FirmwareFilters :=
  {| product := None; platform := None; channel := None; version := None;
     limit := None; offset := None; sort := None |}.

Definition baseUrl : string := "https://fw-update.ubnt.com/api".
Definition firmwareEndpoint : string := "/firmware".
Definition firmwareLatestEndpoint : string := "/firmware-latest".

(** Truthiness of an optional string ([if (filters.product)]). *)
Definition nonempty (s : string) : bool := negb (String.eqb s "").
Definition truthy_string (o : option string) : bool :=
  match o with
  | Some s => nonempty s
  | None => false
  end.

(** [n || d] on an optional number. *)
Definition num_or (o : option Z) (d : Z) : Z :=
  match o with
  | Some n => if n =? 0 then d else n
  | None => d
  end.

Definition condition_to_string (c : FilterCondition) : string :=
  "filter=" +:+ operator_to_string (op c) +:+ "~~" +:+ field c +:+ "~~"
  +:+ value c.

Definition buildFilterQuery (conditions : list FilterCondition) : string :=
  join "&" (map condition_to_string conditions).

(** A value of the [params] record handed to [buildQueryParams]. *)
Inductive param : Type :=
| PUndefined
| PNull
| PNumber (n : Z)
| PString (s : string).

(** [value !== undefined && value !== null && value !== ""] *)
Definition param_present (v : param) : bool :=
  match v with
  | PUndefined => false
  | PNull => false
  | PNumber _ => true
  | PString s => nonempty s
  end.

Definition param_to_string (v : param) : string :=
  match v with
  | PUndefined => "undefined"
  | PNull => "null"
  | PNumber n => num_to_string n
  | PString s => s
  end.

(** [Object.entries(params).forEach(...)] appends the present values in the
    order of the record's keys. *)
Definition buildQueryParams (params : list (string * param)) : string :=
  let queryParams : URLSearchParams :=
    map (fun kv => (kv.1, param_to_string kv.2))
        (filter (fun kv => param_present kv.2 = true) params) in
  searchParams_toString queryParams.

Definition param_of_string (o : option string) : param :=
  match o with
  | Some s => PString s
  | None => PUndefined
  end.

(** [if (filters.f) conditions.push({field, operator: "eq", value: filters.f})] *)
Definition eq_condition (name : string) (o : option string)
  : list FilterCondition :=
  match o with
  | Some s => if nonempty s then [{| field := name; op := op_eq; value := s |}]
              else []
  | None => []
  end.

(** The [conditions] array of [fetchFirmware] once the three simple filters
    have been pushed onto a copy of [additionalConditions]. *)
Definition firmwareConditions (filters : FirmwareFilters)
    (additionalConditions : list FilterCondition) : list FilterCondition :=
  additionalConditions
  ++ eq_condition "product" (product filters)
  ++ eq_condition "platform" (platform filters)
  ++ eq_condition "channel" (channel filters).

Definition firmwareParams (filters : FirmwareFilters) : string :=
  buildQueryParams
    [("limit", PNumber (num_or (limit filters) 50));
     ("offset", PNumber (num_or (offset filters) 0));
     ("sort", param_of_string (sort filters))].

(** [[filterQuery, params].filter(Boolean).join("&")] *)
Definition firmwareQueryString (filters : FirmwareFilters)
    (additionalConditions : list FilterCondition) : string :=
  let filterQuery :=
    buildFilterQuery (firmwareConditions filters additionalConditions) in
  let params := firmwareParams filters in
  join "&" (filter (fun s => nonempty s = true) [filterQuery; params]).

Definition firmwareUrl (filters : FirmwareFilters)
    (additionalConditions : list FilterCondition) : string :=
  let queryString := firmwareQueryString filters additionalConditions in
  baseUrl +:+ firmwareEndpoint +:+
  (if nonempty queryString then "?" +:+ queryString else "").

(** ** Query operations *)

(** The [catch] blocks that log with [console.error] and rethrow leave the
    outcome as it is. *)
Definition log_and_rethrow {A} (m : M A) : M A :=
  try_catch m (fun error => throw error).

Definition fetchFirmware (net : network) (filters : FirmwareFilters)
    (additionalConditions : list FilterCondition) : M json :=
  log_and_rethrow (cachedFetch net (firmwareUrl filters additionalConditions)).

Definition fetchLatestFirmware (net : network) : M json :=
  log_and_rethrow (cachedFetch net (baseUrl +:+ firmwareLatestEndpoint)).

Definition searchFirmware `{Engine} (net : network) (searchTerm : string)
    (filters : FirmwareFilters) : M json :=
  let conditions :=
    if nonempty (trim searchTerm)
    then [{| field := "product"; op := op_like;
             value := "*" +:+ searchTerm +:+ "*" |}]
    else [] in
  fetchFirmware net filters conditions.

(** The result is a firmware item or [null]; [null] is [JNull]. *)
Definition getFirmwareById (net : network) (id : string) : M json :=
  log_and_rethrow
    (let url := baseUrl +:+ firmwareEndpoint +:+ "/" +:+ id in
     try_catch (cachedFetch net url)
       (fun error =>
          if includes "404" (err_message error) then ret JNull
          else throw error)).

(** ** Reading a parsed response *)

(** An own member of a parsed object; of duplicate keys [JSON.parse] keeps
    the last. *)
Definition get_member (k : string) (members : list (string * json)) : jsval :=
  fold_left (fun acc kv => if String.eqb kv.1 k then Some kv.2 else acc)
            members None.

(** The property read [v.k] for the member names the service uses (none of
    them is a method or a [length]): it throws on [undefined] and [null] and
    is [undefined] on the other values that are not objects. *)
Definition get_prop (v : jsval) (k : string) : result jsval :=
  match v with
  | None => Throw (TypeError "Cannot read properties of undefined")
  | Some JNull => Throw (TypeError "Cannot read properties of null")
  | Some (JObj members) => Ok (get_member k members)
  | Some _ => Ok None
  end.

Fixpoint map_result {A B} (f : A -> result B) (l : list A) : result (list B) :=
  match l with
  | [] => Ok []
  | x :: rest =>
      match f x with
      | Ok y =>
          match map_result f rest with
          | Ok ys => Ok (y :: ys)
          | Throw e => Throw e
          end
      | Throw e => Throw e
      end
  end.

(** [firmware.map((fw) => fw.k)]: only an array has [map]. *)
Definition array_map_prop (firmware : jsval) (k : string)
  : result (list jsval) :=
  match firmware with
  | Some (JArr items) => map_result (fun fw => get_prop (Some fw) k) items
  | _ => Throw (TypeError "firmware.map is not a function")
  end.

(** SameValueZero, the equality of [Set]: by value on primitives; two arrays
    or objects read from different places of a response are never the same
    reference. *)
Definition same_value_zero (a b : jsval) : bool :=
  match a, b with
  | None, None => true
  | Some JNull, Some JNull => true
  | Some (JBool x), Some (JBool y) => Bool.eqb x y
  | Some (JNum x), Some (JNum y) => x =? y
  | Some (JStr x), Some (JStr y) => String.eqb x y
  | _, _ => false
  end.

(** [new Set(values)] as the list of its elements in insertion order, which
    is what [Array.from] makes of it. *)
Definition set_add (s : list jsval) (v : jsval) : list jsval :=
  if existsb (same_value_zero v) s then s else s ++ [v].

Definition new_Set (values : list jsval) : list jsval :=
  fold_left set_add values [].

Definition as_string (v : json) : option string :=
  match v with
  | JStr s => Some s
  | _ => None
  end.

Definition is_undefined (v : jsval) : bool :=
  match v with
  | None => true
  | Some _ => false
  end.

(** A stable sort by insertion: an element goes in front of the first one it
    does not sort after. *)
Fixpoint insert_sorted (cmp : string -> string -> comparison) (x : string)
    (l : list string) : list string :=
  match l with
  | [] => [x]
  | y :: rest =>
      match cmp x y with
      | Gt => y :: insert_sorted cmp x rest
      | _ => x :: l
      end
  end.

Definition sort_strings (cmp : string -> string -> comparison)
    (l : list string) : list string :=
  fold_right (insert_sorted cmp) [] l.

Record FilterValues := {
  products : list jsval;
  platforms : list jsval;
  channels : list jsval
}.

Definition no_filter_values : FilterValues :=
  {| products := []; platforms := []; channels := [] |}.

Section WithEngine.
Context {E : Engine}.

(** [(a, b) => a.toLowerCase().localeCompare(b.toLowerCase())] *)
Definition sortAlphabetically (a b : string) : comparison :=
  localeCompare (toLowerCase a) (toLowerCase b).

(** [values.toSorted(sortAlphabetically)]: [undefined] elements go last and
    never reach the comparator; the others are sorted stably. With two or
    more of them the comparator is called on each, and it throws on one
    that is not a string. *)
Definition toSorted (values : list jsval) : result (list jsval) :=
  let defined : list json := omap id values in
  let undefineds := filter (fun v => is_undefined v = true) values in
  match defined with
  | [] | [_] => Ok (map Some defined ++ undefineds)
  | _ =>
      match mapM as_string defined with
      | Some ss =>
          Ok (map (fun s => Some (JStr s))
                  (sort_strings sortAlphabetically ss) ++ undefineds)
      | None => Throw (TypeError "a.toLowerCase is not a function")
      end
  end.

Definition getInitialFilterValues (net : network) : M FilterValues :=
  try_catch
    (response <- fetchLatestFirmware net ;;
     embedded <- lift (get_prop (Some response) "_embedded") ;;
     firmware <- lift (get_prop embedded "firmware") ;;
     ps <- lift (array_map_prop firmware "product") ;;
     pls <- lift (array_map_prop firmware "platform") ;;
     chs <- lift (array_map_prop firmware "channel") ;;
     sorted_ps <- lift (toSorted (new_Set ps)) ;;
     sorted_pls <- lift (toSorted (new_Set pls)) ;;
     sorted_chs <- lift (toSorted (new_Set chs)) ;;
     ret {| products := sorted_ps; platforms := sorted_pls;
            channels := sorted_chs |})
    (fun error => ret no_filter_values).

Definition getChannelDisplayName (channel : string) : string :=
  if String.eqb channel "release" then "Official"
  else if String.eqb channel "beta-public" then "Beta"
  else if String.eqb channel "beta" then "Beta"
  else if String.eqb channel "alpha" then "Alpha"
  else toUpperCase (charAt0 channel) +:+ slice1 channel.

End WithEngine.

(** ** Presentation helpers *)

Definition sizes : list string := ["B"; "KB"; "MB"; "GB"].

(** [(num / den).toFixed(1)] for [0 <= num] and [0 < den]: the integer [n]
    nearest to ten times the quotient, the larger one on a tie, printed with
    a point before its last digit. *)
Definition toFixed1 (num den : Z) : string :=
  let n := (20 * num + den) / (2 * den) in
  num_to_string (n / 10) +:+ "." +:+ num_to_string (n mod 10).

(** The unit index [Math.floor(Math.log(bytes) / Math.log(1024))] is taken at
    its exact value, the floor of the base-1024 logarithm; a negative count
    makes every intermediate value [NaN]. In double precision the quotient
    reaches the next integer early for the few counts just below 1024^5 and
    the higher powers, where the engine shows 1.0 of the next index; below
    1024^5 less those few counts the index is the exact one. *)
Definition formatFileSize (bytes : Z) : string :=
  if bytes =? 0 then "0 B"
  else if bytes <? 0 then "NaN undefined"
  else
    let i := Z.log2 bytes / 10 in
    let size := toFixed1 bytes (1024 ^ i) in
    size +:+ " " +:+
    match sizes !! Z.to_nat i with
    | Some unit_label => unit_label
    | None => "undefined"
    end.

(** ** The typed view of the catalogue *)

(** The fields of [FirmwareItem] the service and its views read. *)
Record FirmwareItem := {
  fw_id : string;
  fw_channel : string;
  fw_created : string;
  fw_updated : string;
  fw_file_size : Z;
  fw_md5 : string;
  fw_sha256_checksum : string;
  fw_platform : string;
  fw_product : string;
  fw_version : string;
  fw_self_href : string;
  fw_data_href : string
}.

Record FirmwareResponse := {
  embedded_firmware : list FirmwareItem
}.

(** The wire form of an item and of a response. *)
Definition item_to_json (fw : FirmwareItem) : json :=
  JObj [("id", JStr (fw_id fw));
        ("channel", JStr (fw_channel fw));
        ("created", JStr (fw_created fw));
        ("updated", JStr (fw_updated fw));
        ("file_size", JNum (fw_file_size fw));
        ("md5", JStr (fw_md5 fw));
        ("sha256_checksum", JStr (fw_sha256_checksum fw));
        ("platform", JStr (fw_platform fw));
        ("product", JStr (fw_product fw));
        ("version", JStr (fw_version fw));
        ("_links", JObj [("self", JObj [("href", JStr (fw_self_href fw))]);
                         ("data", JObj [("href", JStr (fw_data_href fw))])])].

Definition response_to_json (r : FirmwareResponse) : json :=
  JObj [("_embedded",
         JObj [("firmware", JArr (map item_to_json (embedded_firmware r)))])].

(** ** A reference engine for ASCII text *)

Definition ascii_lower (c : ascii) : ascii :=
  let n := N_of_ascii c in
  if ((65 <=? n) && (n <=? 90))%N then ascii_of_N (n + 32) else c.

Definition ascii_upper (c : ascii) : ascii :=
  let n := N_of_ascii c in
  if ((97 <=? n) && (n <=? 122))%N then ascii_of_N (n - 32) else c.

Fixpoint map_string (f : ascii -> ascii) (s : string) : string :=
  match s with
  | EmptyString => ""
  | String c s' => String (f c) (map_string f s')
  end.

(** Tab, line feed, vertical tab, form feed, carriage return, space and the
    no-break space. *)
Definition is_whitespace (c : ascii) : bool :=
  let n := N_of_ascii c in
  ((9 <=? n) && (n <=? 13) || (n =? 32) || (n =? 160))%N.

Fixpoint trim_start (s : string) : string :=
  match s with
  | EmptyString => ""
  | String c s' => if is_whitespace c then trim_start s' else s
  end.

Fixpoint trim_end (s : string) : string :=
  match s with
  | EmptyString => ""
  | String c s' =>
      match trim_end s' with
      | EmptyString => if is_whitespace c then "" else String c ""
      | t => String c t
      end
  end.

(** Case mapping and white space as on ASCII text, collation by code unit
    (on lower-case ASCII letters and digits, the order of every collation). *)
Definition ascii_engine : Engine :=
  {| toLowerCase := map_string ascii_lower;
     toUpperCase := map_string ascii_upper;
     trim := fun s => trim_end (trim_start s);
     localeCompare := String.compare |}.

(** ** Vocabulary of the properties and sample data *)

(** A remote end that answers every request with [200 OK] and the JSON
    document [0]. *)
Definition zero_body_network : network :=
  fun _ _ => Resolve (Response 200 "OK" (Ok (JNum 0))).

(** What counts as a failed fetch: the transport fails, the status is not a
    success, or the body is not JSON. *)
Definition fetch_fails (o : fetch_outcome) : bool :=
  match o with
  | Reject _ => true
  | Resolve r =>
      negb (ok r) || match body r with Ok _ => false | Throw _ => true end
  end.

(** A remote end that is down. *)
Definition unreachable_network : network :=
  fun _ _ => Reject (TypeError "Failed to fetch").

Definition firmwareByIdUrl (id : string) : string :=
  baseUrl +:+ firmwareEndpoint +:+ "/" +:+ id.

(** A remote end that answers every request with status 500 and a reason
    phrase that quotes the status of an upstream server. *)
Definition upstream_404_network : network :=
  fun _ _ => Resolve (Response 500 "upstream returned 404" (Ok (JObj []))).

Fixpoint string_forall (P : ascii -> bool) (s : string) : bool :=
  match s with
  | EmptyString => true
  | String c s' => P c && string_forall P s'
  end.

(** Digits and the minus sign. *)
Definition num_char (c : ascii) : bool :=
  let n := N_of_ascii c in
  ((48 <=? n) && (n <=? 57) || (n =? 45))%N.

(** The [sort] fragment of the query string. *)
Definition sort_fragment (o : option string) : string :=
  match o with
  | Some s => if nonempty s then "&sort=" +:+ urlencode s else ""
  | None => ""
  end.

(** [Number.isSafeInteger(n)]: an integer that a double holds exactly and
    that [toString] prints digit for digit. *)
Definition safe_integer (n : Z) : Prop :=
  - 9007199254740992 < n < 9007199254740992.

(** The effective paging of a listing is in safe integers. *)
Definition safe_paging (filters : FirmwareFilters) : Prop :=
  safe_integer (num_or (limit filters) 50) /\
  safe_integer (num_or (offset filters) 0).

(** The reading of C3 as it is worded: a standard parameter that is not set
    does not occur in the URL. *)
Definition standard_params_only_when_set : Prop :=
  forall filters : FirmwareFilters,
    (limit filters = None ->
     includes "limit=" (firmwareUrl filters []) = false) /\
    (offset filters = None ->
     includes "offset=" (firmwareUrl filters []) = false) /\
    (sort filters = None ->
     includes "sort=" (firmwareUrl filters []) = false).

(** A caller that leaves the product empty and sets only paging and order. *)
Definition paging_only_filters : FirmwareFilters :=
  {| product := Some ""; platform := None; channel := None; version := None;
     limit := Some 10000; offset := None; sort := Some "-created" |}.

(** A string as a defined JavaScript value. *)
Definition str (s : string) : jsval := Some (JStr s).

(** The items of a response of the catalogue's shape: [_embedded.firmware]
    is an array. *)
Definition embedded_items (response : json) : option (list json) :=
  match get_prop (Some response) "_embedded" with
  | Ok embedded =>
      match get_prop embedded "firmware" with
      | Ok (Some (JArr items)) => Some items
      | _ => None
      end
  | Throw _ => None
  end.

(** The member [k] of an item when it is a string. *)
Definition string_prop (k : string) (fw : json) : option string :=
  match get_prop (Some fw) k with
  | Ok (Some (JStr s)) => Some s
  | _ => None
  end.

(** [new Set] on strings: the first occurrence of each, in order. *)
Definition add_distinct (acc : list string) (s : string) : list string :=
  if existsb (String.eqb s) acc then acc else acc ++ [s].

Definition distinct (l : list string) : list string :=
  fold_left add_distinct l [].

Definition firmwareLatestUrl : string := baseUrl +:+ firmwareLatestEndpoint.

(** [a] does not sort after [b]. *)
Definition not_after (cmp : string -> string -> comparison) (a b : string)
  : Prop := cmp a b <> Gt.

(** The values of one field over the items: each once, in ascending order of
    the lower-cased values. *)
Definition distinct_sorted (E : Engine) (values : list string)
    (listed : list jsval) : Prop :=
  exists ss : list string,
    listed = map str ss /\
    NoDup ss /\
    (forall x, x ∈ ss <-> x ∈ values) /\
    Sorted (not_after sortAlphabetically) ss.

(** An engine that lower-cases [B] and [C] and collates [a], [b], [c] in
    alphabetical order. *)
Definition collates_abc (E : Engine) : Prop :=
  toLowerCase "a" = "a" /\ toLowerCase "B" = "b" /\ toLowerCase "C" = "c" /\
  localeCompare "a" "c" = Lt /\ localeCompare "b" "a" = Gt /\
  localeCompare "b" "c" = Lt.

Definition catalogue_item (product platform channel : string) : FirmwareItem :=
  {| fw_id := "0000"; fw_channel := channel; fw_created := "2025-01-01";
     fw_updated := "2025-01-01"; fw_file_size := 1536; fw_md5 := "";
     fw_sha256_checksum := ""; fw_platform := platform;
     fw_product := product; fw_version := "v1.0.0";
     fw_self_href := ""; fw_data_href := "" |}.

Definition catalogue : FirmwareResponse :=
  {| embedded_firmware :=
       [catalogue_item "B" "s5l" "release";
        catalogue_item "a" "s2l" "beta";
        catalogue_item "C" "s5l" "release"] |}.

(** A remote end that serves the catalogue to every request. *)
Definition catalogue_network : network :=
  fun _ _ => Resolve (Response 200 "OK" (Ok (response_to_json catalogue))).

(** ** Further members of the service *)

(** [firmware._links.data?.href]: the optional chain stops at a [data] that
    is [undefined] or [null]; a missing [_links] throws. *)
Definition getDownloadUrl (firmware : json) : result jsval :=
  match get_prop (Some firmware) "_links" with
  | Throw e => Throw e
  | Ok links =>
      match get_prop links "data" with
      | Throw e => Throw e
      | Ok None => Ok None
      | Ok (Some JNull) => Ok None
      | Ok data => get_prop data "href"
      end
  end.

(** ** The service without extra conditions *)

(** The file that also exports [PLATFORM_PRODUCTS] carries the service in a
    second form: the cache is read directly, [fetchFirmware] takes the
    filters only and puts everything through [URLSearchParams], and no
    [catch] block logs and rethrows. *)
Module Plain.

(** [this.cache.get(url)] followed by [if (cached)]. *)
Definition cachedFetch (net : network) (url : string) : M json :=
  fun st =>
    match cache st !! url with
    | Some cached =>
        if truthy cached then (Ok cached, st)
        else
          (r <- fetch net url ;;
           if negb (ok r) then throw (JsError "Error" (fetch_error_message r))
           else
             data <- lift (body r) ;;
             _ <- setCache url data ;;
             ret data) st
    | None =>
        (r <- fetch net url ;;
         if negb (ok r) then throw (JsError "Error" (fetch_error_message r))
         else
           data <- lift (body r) ;;
           _ <- setCache url data ;;
           ret data) st
    end.

(** [if (filters.f) params.append(name, text)] *)
Definition append_if (name : string) (o : option string)
    (text : string -> string) : URLSearchParams :=
  match o with
  | Some s => if nonempty s then [(name, text s)] else []
  | None => []
  end.

(** The [params] of [fetchFirmware] after all its [append]s. *)
Definition firmwareSearchParams (filters : FirmwareFilters) : URLSearchParams :=
  [("limit", num_to_string (num_or (limit filters) 50));
   ("offset", num_to_string (num_or (offset filters) 0))]
  ++ append_if "sort" (sort filters) (fun s => s)
  ++ append_if "filter" (product filters) (fun s => "eq~~product~~" +:+ s)
  ++ append_if "filter" (platform filters) (fun s => "eq~~platform~~" +:+ s)
  ++ append_if "filter" (channel filters) (fun s => "eq~~channel~~" +:+ s).

Definition firmwareUrl (filters : FirmwareFilters) : string :=
  baseUrl +:+ firmwareEndpoint +:+ "?"
  +:+ searchParams_toString (firmwareSearchParams filters).

Definition fetchFirmware (net : network) (filters : FirmwareFilters) : M json :=
  cachedFetch net (firmwareUrl filters).

Definition fetchLatestFirmware (net : network) : M json :=
  cachedFetch net (baseUrl +:+ firmwareLatestEndpoint).

Definition getInitialFilterValues {E : Engine} (net : network)
  : M FilterValues :=
  try_catch
    (response <- fetchLatestFirmware net ;;
     embedded <- lift (get_prop (Some response) "_embedded") ;;
     firmware <- lift (get_prop embedded "firmware") ;;
     ps <- lift (array_map_prop firmware "product") ;;
     pls <- lift (array_map_prop firmware "platform") ;;
     chs <- lift (array_map_prop firmware "channel") ;;
     sorted_ps <- lift (toSorted (new_Set ps)) ;;
     sorted_pls <- lift (toSorted (new_Set pls)) ;;
     sorted_chs <- lift (toSorted (new_Set chs)) ;;
     ret {| products := sorted_ps; platforms := sorted_pls;
            channels := sorted_chs |})
    (fun error => ret no_filter_values).

Definition getFirmwareById (net : network) (id : string) : M json :=
  try_catch
    (cachedFetch net (baseUrl +:+ firmwareEndpoint +:+ "/" +:+ id))
    (fun error =>
       if includes "404" (err_message error) then ret JNull
       else throw error).

End Plain.

(** ** The search view *)

(** The sort state of the search view and the two handlers that write it.
    The selections and the sort state are the view's reactive values;
    [null] is [None]. *)
Module View.

Inductive SortOrder : Type := asc | desc.

(** An element of the table's [sort-by] array. *)
Record SortItem := { key : string; order : SortOrder }.

Record ViewState := {
  selectedProductType : option string;
  selectedPlatform : option string;
  sortBy : string;
  sortOrder : SortOrder
}.

Definition clearFilters (s : ViewState) : ViewState :=
  {| selectedProductType := None; selectedPlatform := None;
     sortBy := "created"; sortOrder := desc |}.

Definition handleSort (sortByArray : list SortItem) (s : ViewState)
  : ViewState :=
  match sortByArray with
  | [] =>
      {| selectedProductType := selectedProductType s;
         selectedPlatform := selectedPlatform s;
         sortBy := ""; sortOrder := asc |}
  | sort :: _ =>
      {| selectedProductType := selectedProductType s;
         selectedPlatform := selectedPlatform s;
         sortBy := key sort; sortOrder := order sort |}
  end.

(** The table's [sort-by] binding:
    [sortBy ? [{ key: sortBy, order: sortOrder }] : []]. *)
Definition tableSortBy (s : ViewState) : list SortItem :=
  if nonempty (sortBy s) then [{| key := sortBy s; order := sortOrder s |}]
  else [].

End View.

(** ** Sessions *)

(** One call of a query operation of the service. *)
Inductive service_call : Type :=
| call_fetchFirmware (filters : FirmwareFilters)
                     (additionalConditions : list FilterCondition)
| call_fetchLatestFirmware
| call_searchFirmware (searchTerm : string) (filters : FirmwareFilters)
| call_getInitialFilterValues
| call_getFirmwareById (id : string).

(** The service state a call leaves behind, whatever it returns or throws. *)
Definition call_state {E : Engine} (net : network) (c : service_call)
    (st : state) : state :=
  match c with
  | call_fetchFirmware filters extra => (fetchFirmware net filters extra st).2
  | call_fetchLatestFirmware => (fetchLatestFirmware net st).2
  | call_searchFirmware term filters => (searchFirmware net term filters st).2
  | call_getInitialFilterValues => (getInitialFilterValues net st).2
  | call_getFirmwareById id => (getFirmwareById net id st).2
  end.

(** Calls made one after the other, each awaited before the next. *)
Definition session {E : Engine} (net : network) (calls : list service_call)
    (st : state) : state :=
  fold_left (fun st c => call_state net c st) calls st.

(** The URL a call passes to [cachedFetch]. *)
Definition call_url {E : Engine} (c : service_call) : string :=
  match c with
  | call_fetchFirmware filters extra => firmwareUrl filters extra
  | call_fetchLatestFirmware => firmwareLatestUrl
  | call_searchFirmware term filters =>
      firmwareUrl filters
        (if nonempty (trim term)
         then [{| field := "product"; op := op_like;
                  value := "*" +:+ term +:+ "*" |}]
         else [])
  | call_getInitialFilterValues => firmwareLatestUrl
  | call_getFirmwareById id => firmwareByIdUrl id
  end.

(** ** Vocabulary of the further properties *)

(** The characters the serializer can emit: the ones it leaves alone, the
    plus sign, and the percent sign. *)
Definition urlencoded_char (c : ascii) : bool :=
  let n := N_of_ascii c in
  urlencoded_safe n || (n =? 43)%N || (n =? 37)%N.

Definition hex_value (c : ascii) : option N :=
  let n := N_of_ascii c in
  if ((48 <=? n) && (n <=? 57))%N then Some (n - 48)%N
  else if ((65 <=? n) && (n <=? 70))%N then Some (n - 55)%N
  else None.

(** One percent-encoded byte at the head of a text. *)
Definition percent_byte (s : string) : option (N * string) :=
  match s with
  | String "%" (String h (String l rest)) =>
      match hex_value h, hex_value l with
      | Some a, Some b => Some (16 * a + b, rest)%N
      | _, _ => None
      end
  | _ => None
  end.

(** The code unit at the head of a serialized text, and what follows it. *)
Definition decode_unit (s : string) : option (ascii * string) :=
  match s with
  | EmptyString => None
  | String "+" rest => Some (" "%char, rest)
  | String "%" _ =>
      match percent_byte s with
      | Some (b, rest) =>
          if (b <? 128)%N then Some (ascii_of_N b, rest)
          else
            match percent_byte rest with
            | Some (b', rest') =>
                Some (ascii_of_N (N.lor (N.shiftl (N.land b 3) 6)
                                        (N.land b' 63)), rest')
            | None => None
            end
      | None => None
      end
  | String c rest => Some (c, rest)
  end.

(** Further pairs of a query string, each behind its [&]. *)
Definition searchParams_toString_tail (ps : URLSearchParams) : string :=
  concat_strings
    (map (fun kv => "&" +:+ urlencode kv.1 +:+ "=" +:+ urlencode kv.2) ps).

(** The sort order that reaches the URL: none when [sort] is unset or
    empty. *)
Definition effective_sort (filters : FirmwareFilters) : option string :=
  match sort filters with
  | Some s => if nonempty s then Some s else None
  | None => None
  end.

(** A text is empty or begins with a character outside [P]. *)
Definition head_outside (P : ascii -> bool) (s : string) : bool :=
  match s with
  | EmptyString => true
  | String c _ => negb (P c)
  end.

(** How often a character occurs in a text. *)
Fixpoint count_char (c : ascii) (s : string) : nat :=
  match s with
  | EmptyString => 0
  | String x s' => (if Ascii.eqb x c then 1 else 0) + count_char c s'
  end.

(** An item in the catalogue's wire form. *)
Definition sample_item_json : json :=
  item_to_json (catalogue_item "G4 Pro" "s5l" "release").

(** * Properties *)

(** ** The cached fetch client *)

Lemma getCached_truthy_lookup key st :
  truthy (getCached key st) = true ->
  cache st !! key = Some (getCached key st).
Proof.
  unfold getCached. destruct (cache st !! key) as [v|] eqn:Hk; [|discriminate].
  destruct (truthy v); [done | discriminate].
Qed.

Lemma getCached_insert key data c rs :
  truthy data = true ->
  getCached key (State (<[key := data]> c) rs) = data.
Proof.
  intros Hd. unfold getCached. simpl. rewrite lookup_insert_eq. by rewrite Hd.
Qed.

(** A hit answers from the cache and touches nothing. *)
Lemma cachedFetch_hit net url st :
  truthy (getCached url st) = true ->
  cachedFetch net url st = (Ok (getCached url st), st).
Proof. intros H. unfold cachedFetch, getCacheKey. by rewrite H. Qed.

(** A miss is decided by the remote end. *)
Lemma cachedFetch_miss net url st :
  truthy (getCached url st) = false ->
  cachedFetch net url st =
  let st1 := State (cache st) (requests st ++ [url]) in
  match net (requests st) url with
  | Reject e => (Throw e, st1)
  | Resolve r =>
      if ok r then
        match body r with
        | Ok data => (Ok data, State (<[url := data]> (cache st))
                                     (requests st ++ [url]))
        | Throw e => (Throw e, st1)
        end
      else (Throw (JsError "Error" (fetch_error_message r)), st1)
  end.
Proof.
  intros H. unfold cachedFetch, getCacheKey. rewrite H.
  unfold bind, fetch, throw, lift, setCache, ret. simpl.
  destruct (net (requests st) url) as [r|e]; [|done].
  destruct (ok r); simpl; [|done].
  by destruct (body r).
Qed.

(** The cache is idempotent on every value that is truthy: once such a value
    has been returned, the next call for the URL returns it again without a
    request, whatever the remote end would answer. *)
Lemma cachedFetch_idempotent_truthy net net' url st st' v :
  cachedFetch net url st = (Ok v, st') ->
  truthy v = true ->
  cachedFetch net' url st' = (Ok v, st').
Proof.
  intros Hrun Hv.
  destruct (truthy (getCached url st)) eqn:Hc.
  - rewrite cachedFetch_hit in Hrun by done.
    injection Hrun as <- <-. by apply cachedFetch_hit.
  - rewrite cachedFetch_miss in Hrun by done. simpl in Hrun.
    destruct (net (requests st) url) as [r|e]; [|discriminate].
    destruct (ok r); [|discriminate].
    destruct (body r) as [data|e]; [|discriminate].
    injection Hrun as -> <-.
    rewrite cachedFetch_hit; rewrite getCached_insert; done.
Qed.

(** C1, at a body that is falsy: the first call succeeds and stores the
    value, and the second call for the same URL, with the cache untouched in
    between, goes to the network again. *)
Theorem cachedFetch_falsy_body_refetched :
  let url := "https://fw-update.ubnt.com/api/firmware/abc" in
  exists st1 st2,
    cachedFetch zero_body_network url initial_state = (Ok (JNum 0), st1) /\
    cache st1 !! url = Some (JNum 0) /\
    requests st1 = [url] /\
    cachedFetch zero_body_network url st1 = (Ok (JNum 0), st2) /\
    requests st2 = [url; url].
Proof.
  intros url.
  eexists _, _. split.
  - rewrite cachedFetch_miss by reflexivity. reflexivity.
  - split; [apply lookup_insert_eq|]. split; [reflexivity|]. split.
    + rewrite cachedFetch_miss; [reflexivity|].
      unfold getCached. simpl. by rewrite lookup_insert_eq.
    + reflexivity.
Qed.

(** Whatever [cachedFetch] throws, it has left the cache as it was. *)
Lemma cachedFetch_throw_cache net url st st' e :
  cachedFetch net url st = (Throw e, st') ->
  truthy (getCached url st) = false /\
  st' = State (cache st) (requests st ++ [url]).
Proof.
  intros Hrun.
  destruct (truthy (getCached url st)) eqn:Hc.
  - rewrite cachedFetch_hit in Hrun by done. discriminate.
  - split; [done|].
    rewrite cachedFetch_miss in Hrun by done. simpl in Hrun.
    destruct (net (requests st) url) as [r|e'].
    + destruct (ok r).
      * destruct (body r); [discriminate|]. by injection Hrun as _ <-.
      * by injection Hrun as _ <-.
    + by injection Hrun as _ <-.
Qed.

(** C5: a call that misses the cache and whose fetch fails throws; and a
    call that throws, whatever the error, has left the cache as it was, with
    no entry stored for the URL, so that the next call for the same URL
    sends the request again. *)
Theorem cachedFetch_failure_not_cached net url st :
  (truthy (getCached url st) = false ->
   fetch_fails (net (requests st) url) = true ->
   exists e st', cachedFetch net url st = (Throw e, st')) /\
  (forall e st',
     cachedFetch net url st = (Throw e, st') ->
     cache st' = cache st /\
     requests st' = requests st ++ [url] /\
     forall net',
       requests (cachedFetch net' url st').2 = requests st' ++ [url]).
Proof.
  split.
  - intros Hmiss Hfail. rewrite cachedFetch_miss by done. simpl.
    destruct (net (requests st) url) as [r|e]; [|by eexists _, _].
    simpl in Hfail. destruct (ok r); simpl in Hfail; [|by eexists _, _].
    destruct (body r); [discriminate | by eexists _, _].
  - intros e st' Hrun.
    apply cachedFetch_throw_cache in Hrun as [Hmiss ->].
    split; [done|]. split; [done|].
    intros net'. rewrite cachedFetch_miss by done. simpl.
    destruct (net' _ url) as [r|e']; [|done].
    destruct (ok r); [|done]. by destruct (body r).
Qed.

Lemma cachedFetch_failure_not_cached_witness :
  (exists e st',
     cachedFetch unreachable_network firmwareLatestUrl initial_state
     = (Throw e, st')) /\
  forall net',
    requests (cachedFetch net' firmwareLatestUrl
                (State ∅ [firmwareLatestUrl])).2
    = [firmwareLatestUrl; firmwareLatestUrl].
Proof.
  destruct (cachedFetch_failure_not_cached unreachable_network
              firmwareLatestUrl initial_state) as [Hthrows Hkept].
  split.
  - apply Hthrows; reflexivity.
  - apply (Hkept (TypeError "Failed to fetch") (State ∅ [firmwareLatestUrl])).
    reflexivity.
Defined.

(** ** Lookup by identifier *)

Lemma getFirmwareById_unfold net id st :
  getFirmwareById net id st =
  match cachedFetch net (firmwareByIdUrl id) st with
  | (Ok item, st') => (Ok item, st')
  | (Throw error, st') =>
      if includes "404" (err_message error) then (Ok JNull, st')
      else (Throw error, st')
  end.
Proof.
  unfold getFirmwareById, log_and_rethrow, try_catch, firmwareByIdUrl.
  destruct (cachedFetch _ _ st) as [[item|error] st']; [done|].
  unfold ret, throw. by destruct (includes "404" (err_message error)).
Qed.

(** A response with status 404 becomes [null]. *)
Lemma getFirmwareById_404_is_null net id st r :
  truthy (getCached (firmwareByIdUrl id) st) = false ->
  net (requests st) (firmwareByIdUrl id) = Resolve r ->
  status r = 404 ->
  getFirmwareById net id st
  = (Ok JNull, State (cache st) (requests st ++ [firmwareByIdUrl id])).
Proof.
  intros Hmiss Hnet H404. rewrite getFirmwareById_unfold.
  rewrite cachedFetch_miss by done. simpl. rewrite Hnet.
  unfold ok, fetch_error_message. rewrite H404. reflexivity.
Qed.

(** An error whose message does not mention 404 reaches the caller. *)
Lemma getFirmwareById_propagates net id st st' e :
  cachedFetch net (firmwareByIdUrl id) st = (Throw e, st') ->
  includes "404" (err_message e) = false ->
  getFirmwareById net id st = (Throw e, st').
Proof.
  intros Hrun Hmsg. rewrite getFirmwareById_unfold, Hrun. by rewrite Hmsg.
Qed.

(** C2, at a failure other than status 404: the response has status 500, its
    error message mentions 404, and the lookup answers [null] instead of
    throwing. *)
Theorem getFirmwareById_500_swallowed :
  status (Response 500 "upstream returned 404" (Ok (JObj []))) <> 404 /\
  cachedFetch upstream_404_network (firmwareByIdUrl "abc") initial_state
  = (Throw (JsError "Error" "Failed to fetch: 500 upstream returned 404"),
     State ∅ [firmwareByIdUrl "abc"]) /\
  getFirmwareById upstream_404_network "abc" initial_state
  = (Ok JNull, State ∅ [firmwareByIdUrl "abc"]).
Proof.
  split; [simpl; lia|]. split.
  - rewrite cachedFetch_miss by reflexivity. reflexivity.
  - rewrite getFirmwareById_unfold.
    rewrite cachedFetch_miss by reflexivity. reflexivity.
Qed.

(** ** Strings: auxiliary facts *)

Lemma append_cons (x : ascii) (a b : string) :
  String x a +:+ b = String x (a +:+ b).
Proof. reflexivity. Qed.

Lemma append_assoc (a b c : string) : (a +:+ b) +:+ c = a +:+ (b +:+ c).
Proof.
  induction a as [|x a IH]; [done|]. by rewrite !append_cons, IH.
Qed.

Lemma append_empty_r (a : string) : a +:+ "" = a.
Proof. induction a as [|x a IH]; [done|]. by rewrite append_cons, IH. Qed.

Lemma string_forall_app P a b :
  string_forall P (a +:+ b) = string_forall P a && string_forall P b.
Proof.
  induction a as [|x a IH]; [done|].
  rewrite append_cons. simpl. rewrite IH. by rewrite andb_assoc.
Qed.

Lemma includes_cons needle a s :
  includes needle (String a s)
  = starts_with needle (String a s) || includes needle s.
Proof. reflexivity. Qed.

(** A stretch of text without the first character of the needle cannot hold
    the start of an occurrence. *)
Lemma includes_skip c needle a b :
  string_forall (fun x => negb (Ascii.eqb c x)) a = true ->
  includes (String c needle) (a +:+ b) = includes (String c needle) b.
Proof.
  induction a as [|x a IH]; intros Ha; [done|].
  simpl in Ha. apply andb_prop in Ha as [Hx Ha].
  rewrite append_cons, includes_cons, IH by done. simpl.
  apply negb_true_iff in Hx. by rewrite Hx.
Qed.

Lemma starts_with_forall P needle hay :
  starts_with needle hay = true ->
  string_forall P hay = true ->
  string_forall P needle = true.
Proof.
  revert hay. induction needle as [|a needle IH]; intros hay; [done|].
  destruct hay as [|b hay]; simpl; [discriminate|].
  intros [Hab Hrest]%andb_prop [Hb Hhay]%andb_prop.
  apply Ascii.eqb_eq in Hab as ->. rewrite Hb. simpl. by eapply IH.
Qed.

(** A text none of whose characters is some character of the needle does not
    include the needle. *)
Lemma includes_absent P needle hay :
  string_forall P hay = true ->
  string_forall P needle = false ->
  includes needle hay = false.
Proof.
  intros Hhay Hneedle. induction hay as [|b hay IH].
  - simpl. destruct needle; [discriminate | done].
  - rewrite includes_cons. simpl in Hhay. apply andb_prop in Hhay as [Hb Hhay'].
    rewrite IH by done. rewrite orb_false_r.
    destruct (starts_with needle (String b hay)) eqn:Hs; [|done].
    eapply (starts_with_forall P) in Hs; [congruence|].
    simpl. by rewrite Hb.
Qed.

Lemma string_of_uint_chars d :
  string_forall num_char (NilEmpty.string_of_uint d) = true.
Proof. induction d; simpl; done. Qed.

Lemma num_to_string_chars n :
  string_forall num_char (num_to_string n) = true.
Proof.
  unfold num_to_string, NilZero.string_of_int, NilZero.string_of_uint.
  destruct (Z.to_int n) as [d|d]; simpl.
  - destruct d; try done; simpl; apply string_of_uint_chars.
  - destruct d; try done; simpl; apply string_of_uint_chars.
Qed.

Lemma urlencode_unit_num c :
  num_char c = true -> urlencode_unit c = String c "".
Proof.
  destruct c as [[] [] [] [] [] [] [] []]; intros H;
    first [discriminate H | reflexivity].
Qed.

Lemma urlencode_unit_no_equals c :
  string_forall (fun x => negb (Ascii.eqb x "=")) (urlencode_unit c) = true.
Proof. destruct c as [[] [] [] [] [] [] [] []]; reflexivity. Qed.

(** Decimal numbers pass through the serializer unchanged. *)
Lemma urlencode_num s :
  string_forall num_char s = true -> urlencode s = s.
Proof.
  induction s as [|c s IH]; intros H; [done|].
  simpl in H. apply andb_prop in H as [Hc Hs]. cbn [urlencode].
  rewrite urlencode_unit_num, IH by done. done.
Qed.

(** The serializer never emits an equals sign of its own. *)
Lemma urlencode_no_equals s :
  string_forall (fun x => negb (Ascii.eqb x "=")) (urlencode s) = true.
Proof.
  induction s as [|c s IH]; [done|]. cbn [urlencode].
  by rewrite string_forall_app, urlencode_unit_no_equals, IH.
Qed.

Lemma string_forall_impl (P Q : ascii -> bool) s :
  (forall c, P c = true -> Q c = true) ->
  string_forall P s = true -> string_forall Q s = true.
Proof.
  intros HPQ. induction s as [|c s IH]; [done|]. simpl.
  intros [Hc Hs]%andb_prop. by rewrite HPQ, IH.
Qed.

Lemma num_to_string_no_f n :
  string_forall (fun x => negb (Ascii.eqb "f" x)) (num_to_string n) = true.
Proof.
  eapply string_forall_impl; [|apply num_to_string_chars].
  intros c Hc. apply negb_true_iff, Ascii.eqb_neq. intros <-. discriminate.
Qed.

(** ** The query builder *)

Lemma filter_present_cons (k : string) (v : param) rest :
  filter (fun kv : string * param => param_present kv.2 = true) ((k, v) :: rest)
  = if param_present v
    then (k, v) :: filter (fun kv : string * param => param_present kv.2 = true) rest
    else filter (fun kv : string * param => param_present kv.2 = true) rest.
Proof.
  rewrite filter_cons. simpl. destruct (param_present v); by case_decide.
Qed.

Lemma urlencode_limit : urlencode "limit" = "limit".
Proof. reflexivity. Qed.
Lemma urlencode_offset : urlencode "offset" = "offset".
Proof. reflexivity. Qed.
Lemma urlencode_sort : urlencode "sort" = "sort".
Proof. reflexivity. Qed.

Lemma firmwareParams_eq filters :
  firmwareParams filters
  = "limit=" +:+ num_to_string (num_or (limit filters) 50)
    +:+ "&offset=" +:+ num_to_string (num_or (offset filters) 0)
    +:+ sort_fragment (sort filters).
Proof.
  unfold firmwareParams, buildQueryParams, searchParams_toString, sort_fragment.
  rewrite !filter_present_cons, filter_nil.
  cbn [param_present].
  destruct (sort filters) as [s|]; cbn [param_of_string param_present];
    [destruct (nonempty s)|];
    cbn [map join fst snd param_to_string];
    rewrite urlencode_limit, urlencode_offset, ?urlencode_sort,
      !urlencode_num by apply num_to_string_chars;
    rewrite ?append_assoc, ?append_empty_r; reflexivity.
Qed.

Lemma includes_filter_limit y :
  includes "filter=" ("limit=" +:+ y) = includes "filter=" y.
Proof. by rewrite includes_skip. Qed.

Lemma includes_filter_offset y :
  includes "filter=" ("&offset=" +:+ y) = includes "filter=" y.
Proof. rewrite !append_cons, !includes_cons. reflexivity. Qed.

Lemma includes_filter_sort y :
  includes "filter=" ("&sort=" +:+ y) = includes "filter=" y.
Proof. by rewrite includes_skip. Qed.

Lemma sort_fragment_no_filter o :
  includes "filter=" (sort_fragment o) = false.
Proof.
  destruct o as [s|]; simpl; [|done].
  destruct (nonempty s); [|done].
  rewrite includes_filter_sort.
  eapply includes_absent; [apply urlencode_no_equals | reflexivity].
Qed.

(** The standard parameters alone never spell a [filter=] fragment. *)
Lemma firmwareParams_no_filter filters :
  includes "filter=" (firmwareParams filters) = false.
Proof.
  rewrite firmwareParams_eq, includes_filter_limit.
  rewrite includes_skip by apply num_to_string_no_f.
  rewrite includes_filter_offset.
  rewrite includes_skip by apply num_to_string_no_f.
  apply sort_fragment_no_filter.
Qed.

Lemma firmwareParams_nonempty filters : nonempty (firmwareParams filters) = true.
Proof. by rewrite firmwareParams_eq. Qed.

Lemma buildFilterQuery_nonempty c cs :
  nonempty (buildFilterQuery (c :: cs)) = true.
Proof. unfold buildFilterQuery. by destruct cs. Qed.

Lemma firmwareQueryString_eq filters extra :
  firmwareQueryString filters extra
  = match firmwareConditions filters extra with
    | [] => firmwareParams filters
    | cs => buildFilterQuery cs +:+ "&" +:+ firmwareParams filters
    end.
Proof.
  unfold firmwareQueryString.
  destruct (firmwareConditions filters extra) as [|c cs].
  - rewrite !filter_cons, filter_nil.
    rewrite decide_False by done.
    rewrite decide_True by apply firmwareParams_nonempty. done.
  - rewrite !filter_cons, filter_nil.
    rewrite decide_True by apply buildFilterQuery_nonempty.
    rewrite decide_True by apply firmwareParams_nonempty. done.
Qed.

Lemma eq_condition_falsy name o :
  truthy_string o = false -> eq_condition name o = [].
Proof. destruct o as [s|]; simpl; [|done]. by intros ->. Qed.

Lemma eq_condition_value name o c :
  In c (eq_condition name o) ->
  o = Some (value c) /\ value c <> "" /\ op c = op_eq /\ field c = name.
Proof.
  destruct o as [s|]; simpl; [|done].
  destruct (nonempty s) eqn:Hs; simpl; [|done].
  intros [<-|[]]. simpl. repeat split; try done.
  intros ->. discriminate.
Qed.

Lemma nonempty_app_l a b : nonempty a = true -> nonempty (a +:+ b) = true.
Proof. destruct a; [discriminate | done]. Qed.

Lemma firmwareQueryString_nonempty filters extra :
  nonempty (firmwareQueryString filters extra) = true.
Proof.
  rewrite firmwareQueryString_eq.
  destruct (firmwareConditions filters extra).
  - apply firmwareParams_nonempty.
  - apply nonempty_app_l, buildFilterQuery_nonempty.
Qed.

Example firmwareUrl_no_filters :
  firmwareUrl no_filters []
  = "https://fw-update.ubnt.com/api/firmware?limit=50&offset=0".
Proof. reflexivity. Qed.

(** C3 as worded fails: with no filter set at all the URL still carries
    [limit=50] and [offset=0]. *)
Lemma standard_params_only_when_set_fails : ~ standard_params_only_when_set.
Proof.
  intros H. destruct (H no_filters) as [Hlimit _].
  specialize (Hlimit eq_refl). rewrite firmwareUrl_no_filters in Hlimit.
  discriminate Hlimit.
Qed.

(** C3, amended: every URL built by [fetchFirmware], for a limit and an
    offset that are safe integers, carries [limit] and [offset], with 50 and
    0 standing in for a value that is unset or zero; [sort] is appended only
    when it is set and not empty. The standard parameters follow the filter
    conditions. *)
Theorem standard_params_in_url filters extra :
  safe_paging filters ->
  firmwareUrl filters extra
  = "https://fw-update.ubnt.com/api/firmware?" +:+
    match firmwareConditions filters extra with
    | [] => ""
    | cs => buildFilterQuery cs +:+ "&"
    end +:+
    "limit=" +:+ num_to_string (num_or (limit filters) 50) +:+
    "&offset=" +:+ num_to_string (num_or (offset filters) 0) +:+
    match sort filters with
    | Some s => if nonempty s then "&sort=" +:+ urlencode s else ""
    | None => ""
    end.
Proof.
  intros _. unfold firmwareUrl. rewrite firmwareQueryString_nonempty.
  rewrite firmwareQueryString_eq, firmwareParams_eq. unfold sort_fragment.
  destruct (firmwareConditions filters extra); [reflexivity|].
  rewrite !append_assoc. reflexivity.
Qed.

Lemma standard_params_in_url_witness :
  firmwareUrl
    {| product := Some "G4 Pro"; platform := None; channel := None;
       version := None; limit := Some 10000; offset := None;
       sort := Some "-created" |} []
  = "https://fw-update.ubnt.com/api/firmware?filter=eq~~product~~G4 Pro&limit=10000&offset=0&sort=-created".
Proof.
  apply (standard_params_in_url
           {| product := Some "G4 Pro"; platform := None; channel := None;
              version := None; limit := Some 10000; offset := None;
              sort := Some "-created" |} []).
  unfold safe_paging, safe_integer. simpl. lia.
Defined.

(** C4: a product, platform or channel that is undefined or empty contributes
    no condition, so every condition that [fetchFirmware] serializes is one
    of the caller's extra conditions or an [eq] condition with a value that
    is not empty; with none of the three set and no extra condition the
    query string is [limit], [offset] (safe integers, in decimal) and the
    optional [sort], and no [filter=] occurs in it. *)
Theorem empty_filters_omitted filters extra :
  (forall c, In c (firmwareConditions filters extra) ->
     In c extra \/
     (op c = op_eq /\ value c <> "" /\
      (field c = "product" /\ product filters = Some (value c) \/
       field c = "platform" /\ platform filters = Some (value c) \/
       field c = "channel" /\ channel filters = Some (value c)))) /\
  (truthy_string (product filters) = false ->
   truthy_string (platform filters) = false ->
   truthy_string (channel filters) = false ->
   safe_paging filters ->
   firmwareConditions filters [] = [] /\
   firmwareQueryString filters []
   = "limit=" +:+ num_to_string (num_or (limit filters) 50) +:+
     "&offset=" +:+ num_to_string (num_or (offset filters) 0) +:+
     match sort filters with
     | Some s => if nonempty s then "&sort=" +:+ urlencode s else ""
     | None => ""
     end /\
   includes "filter=" (firmwareQueryString filters []) = false).
Proof.
  split.
  - intros c. unfold firmwareConditions. rewrite !in_app_iff.
    intros [Hc|[Hc|[Hc|Hc]]]; [by left|right..];
      apply eq_condition_value in Hc as (Ho & Hv & Hop & Hf);
      repeat split; auto.
  - intros Hp Hpl Hch _.
    assert (Hnone : firmwareConditions filters [] = []).
    { unfold firmwareConditions. by rewrite !eq_condition_falsy. }
    split; [done|].
    rewrite firmwareQueryString_eq, Hnone. split.
    + apply firmwareParams_eq.
    + apply firmwareParams_no_filter.
Qed.

Lemma empty_filters_omitted_witness :
  firmwareConditions paging_only_filters [] = [] /\
  firmwareQueryString paging_only_filters []
  = "limit=10000&offset=0&sort=-created" /\
  includes "filter=" (firmwareQueryString paging_only_filters []) = false.
Proof.
  destruct (empty_filters_omitted paging_only_filters []) as [_ H].
  apply (H eq_refl eq_refl eq_refl).
  unfold safe_paging, safe_integer. simpl. lia.
Defined.

(** An extra condition is serialized as the caller wrote it, also with an
    empty value: only the three simple filters are guarded. *)
Example extra_condition_verbatim :
  firmwareQueryString no_filters
    [{| field := "product"; op := op_eq; value := "" |}]
  = "filter=eq~~product~~&limit=50&offset=0".
Proof. reflexivity. Qed.

(** ** Text search *)

(** C10: a search term that is blank after trimming adds no condition; any
    other term adds the one condition [like] on [product] with the term as
    typed, untrimmed, between asterisks. *)
Theorem searchFirmware_conditions (E : Engine) net searchTerm filters :
  (trim searchTerm = "" ->
   searchFirmware net searchTerm filters = fetchFirmware net filters []) /\
  (trim searchTerm <> "" ->
   searchFirmware net searchTerm filters
   = fetchFirmware net filters
       [{| field := "product"; op := op_like;
           value := "*" +:+ searchTerm +:+ "*" |}]).
Proof.
  unfold searchFirmware, nonempty. split.
  - by intros ->.
  - intros Hne. apply String.eqb_neq in Hne. by rewrite Hne.
Qed.

Lemma searchFirmware_conditions_witness :
  (forall net filters,
     @searchFirmware ascii_engine net "   " filters
     = fetchFirmware net filters []) /\
  (forall net filters,
     @searchFirmware ascii_engine net " G4 " filters
     = fetchFirmware net filters
         [{| field := "product"; op := op_like; value := "* G4 *" |}]).
Proof.
  split; intros net filters.
  - apply (searchFirmware_conditions ascii_engine net "   " filters).
    reflexivity.
  - apply (searchFirmware_conditions ascii_engine net " G4 " filters).
    discriminate.
Defined.

(** ** Presentation helpers *)

(** C9: the four known channels have fixed display names; any other channel
    is shown as itself with its first character upper-cased, so [rc] reads
    [Rc] on an engine that upper-cases [r] to [R]. *)
Theorem getChannelDisplayName_mapping (E : Engine) channel :
  getChannelDisplayName "release" = "Official" /\
  getChannelDisplayName "beta" = "Beta" /\
  getChannelDisplayName "beta-public" = "Beta" /\
  getChannelDisplayName "alpha" = "Alpha" /\
  (channel <> "release" -> channel <> "beta-public" ->
   channel <> "beta" -> channel <> "alpha" ->
   getChannelDisplayName channel
   = toUpperCase (charAt0 channel) +:+ slice1 channel) /\
  (toUpperCase "r" = "R" -> getChannelDisplayName "rc" = "Rc").
Proof.
  repeat split; try reflexivity.
  - intros H1 H2 H3 H4. unfold getChannelDisplayName.
    apply String.eqb_neq in H1, H2, H3, H4. by rewrite H1, H2, H3, H4.
  - intros Hr. unfold getChannelDisplayName. simpl. by rewrite Hr.
Qed.

Lemma getChannelDisplayName_mapping_witness :
  @getChannelDisplayName ascii_engine "rc" = "Rc" /\
  @getChannelDisplayName ascii_engine "rc"
  = @toUpperCase ascii_engine (charAt0 "rc") +:+ slice1 "rc".
Proof.
  destruct (getChannelDisplayName_mapping ascii_engine "rc")
    as (_ & _ & _ & _ & Hother & Hrc).
  split.
  - apply Hrc. reflexivity.
  - apply Hother; discriminate.
Defined.

Example formatFileSize_boundaries :
  formatFileSize 0 = "0 B" /\
  formatFileSize 1024 = "1.0 KB" /\
  formatFileSize 1536 = "1.5 KB".
Proof. repeat split; reflexivity. Qed.

(** Below 1024^4 bytes the unit is one of the four labels, chosen by the
    floor of the base-1024 logarithm, and the number has one decimal. *)
Lemma formatFileSize_below_terabyte bytes :
  0 < bytes < 1024 ^ 4 ->
  exists i unit_label,
    i = Z.log2 bytes / 10 /\ 0 <= i < 4 /\
    sizes !! Z.to_nat i = Some unit_label /\
    formatFileSize bytes
    = toFixed1 bytes (1024 ^ i) +:+ " " +:+ unit_label.
Proof.
  intros [Hpos Hlt].
  assert (Hlog : 0 <= Z.log2 bytes < 40).
  { split; [apply Z.log2_nonneg|]. by apply Z.log2_lt_pow2. }
  assert (Hi : 0 <= Z.log2 bytes / 10 < 4).
  { split; [apply Z.div_pos; lia|]. apply Z.div_lt_upper_bound; lia. }
  unfold formatFileSize.
  destruct (bytes =? 0) eqn:H0; [lia|].
  destruct (bytes <? 0) eqn:Hneg; [lia|].
  destruct (lookup_lt_is_Some_2 sizes (Z.to_nat (Z.log2 bytes / 10)))
    as [u Hu]; [simpl; lia|].
  exists (Z.log2 bytes / 10), u. rewrite Hu. done.
Qed.

(** C8, at a count of two tebibytes: the unit index is 4, the table of labels
    has no entry there, and the text reads [undefined] where the unit
    belongs. *)
Theorem formatFileSize_terabytes_unlabelled :
  0 <= 2199023255552 /\
  Z.log2 2199023255552 / 10 = 4 /\
  sizes !! Z.to_nat 4 = None /\
  formatFileSize 2199023255552 = "2.0 undefined".
Proof. repeat split; try reflexivity. lia. Qed.

(** ** Filter values *)

Lemma existsb_eqb_elem_of (s : string) (acc : list string) :
  existsb (String.eqb s) acc = true <-> s ∈ acc.
Proof.
  rewrite existsb_exists, list_elem_of_In. split.
  - intros (x & Hx & Heq). by apply String.eqb_eq in Heq as ->.
  - intros Hs. exists s. split; [done | apply String.eqb_refl].
Qed.

Lemma existsb_same_value_str s acc :
  existsb (same_value_zero (str s)) (map str acc)
  = existsb (String.eqb s) acc.
Proof. induction acc as [|a acc IH]; [done|]. simpl. by rewrite IH. Qed.

Lemma set_add_str acc s :
  set_add (map str acc) (str s) = map str (add_distinct acc s).
Proof.
  unfold set_add, add_distinct. rewrite existsb_same_value_str.
  destruct (existsb (String.eqb s) acc); [done|]. by rewrite map_app.
Qed.

Lemma fold_set_add_str l acc :
  fold_left set_add (map str l) (map str acc)
  = map str (fold_left add_distinct l acc).
Proof.
  revert acc. induction l as [|s l IH]; intros acc; [done|].
  simpl. by rewrite set_add_str, IH.
Qed.

Lemma new_Set_str l : new_Set (map str l) = map str (distinct l).
Proof. apply (fold_set_add_str l []). Qed.

Lemma add_distinct_spec acc s :
  NoDup acc ->
  NoDup (add_distinct acc s) /\
  forall x, x ∈ add_distinct acc s <-> x ∈ acc \/ x = s.
Proof.
  intros Hnd. unfold add_distinct.
  destruct (existsb (String.eqb s) acc) eqn:Hex.
  - apply existsb_eqb_elem_of in Hex. split; [done|].
    intros x. split; [by left | by intros [?| ->]].
  - assert (Hs : s ∉ acc).
    { intros Hin. apply existsb_eqb_elem_of in Hin. congruence. }
    split.
    + apply NoDup_app. split; [done|]. split; [|apply NoDup_singleton].
      intros x Hx ->%list_elem_of_singleton. done.
    + intros x. by rewrite elem_of_app, list_elem_of_singleton.
Qed.

Lemma fold_add_distinct_spec l acc :
  NoDup acc ->
  NoDup (fold_left add_distinct l acc) /\
  forall x, x ∈ fold_left add_distinct l acc <-> x ∈ acc \/ x ∈ l.
Proof.
  revert acc. induction l as [|s l IH]; intros acc Hnd; simpl.
  - split; [done|]. intros x. rewrite elem_of_nil. tauto.
  - destruct (add_distinct_spec acc s Hnd) as [Hnd' Hin'].
    destruct (IH _ Hnd') as [Hnd'' Hin'']. split; [done|].
    intros x. rewrite Hin'', Hin', elem_of_cons. tauto.
Qed.

Lemma distinct_spec l :
  NoDup (distinct l) /\ forall x, x ∈ distinct l <-> x ∈ l.
Proof.
  destruct (fold_add_distinct_spec l [] (NoDup_nil_2 (A:=string))) as [Hnd Hin].
  split; [done|]. intros x. unfold distinct. rewrite Hin, elem_of_nil. tauto.
Qed.

(** Sorting *)

Lemma insert_sorted_perm cmp x l : insert_sorted cmp x l ≡ₚ x :: l.
Proof.
  induction l as [|y l IH]; [done|]. simpl.
  destruct (cmp x y); try done.
  rewrite IH. apply Permutation_swap.
Qed.

Lemma sort_strings_perm cmp l : sort_strings cmp l ≡ₚ l.
Proof.
  induction l as [|x l IH]; [done|]. simpl.
  by rewrite insert_sorted_perm, IH.
Qed.

Section Sorting.
Context (cmp : string -> string -> comparison).
Hypothesis cmp_asym : forall a b, cmp a b = Gt -> cmp b a <> Gt.

Lemma insert_sorted_HdRel y x l :
  not_after cmp y x -> HdRel (not_after cmp) y l ->
  HdRel (not_after cmp) y (insert_sorted cmp x l).
Proof.
  intros Hyx Hl. destruct l as [|z l]; simpl; [by constructor|].
  inversion_clear Hl. destruct (cmp x z); by constructor.
Qed.

Lemma insert_sorted_Sorted x l :
  Sorted (not_after cmp) l -> Sorted (not_after cmp) (insert_sorted cmp x l).
Proof.
  induction 1 as [|y l Hl IH Hy]; simpl; [by repeat constructor|].
  destruct (cmp x y) eqn:Hxy.
  - constructor; [by constructor|]. constructor. unfold not_after. congruence.
  - constructor; [by constructor|]. constructor. unfold not_after. congruence.
  - constructor; [done|]. apply insert_sorted_HdRel; [|done].
    by apply cmp_asym.
Qed.

Lemma sort_strings_Sorted l : Sorted (not_after cmp) (sort_strings cmp l).
Proof.
  induction l as [|x l IH]; simpl; [constructor|].
  by apply insert_sorted_Sorted.
Qed.
End Sorting.

Lemma log_and_rethrow_run {A} (m : M A) st : log_and_rethrow m st = m st.
Proof.
  unfold log_and_rethrow, try_catch, throw. by destruct (m st) as [[a|e] st'].
Qed.

Lemma fetchLatestFirmware_run net st :
  fetchLatestFirmware net st = cachedFetch net firmwareLatestUrl st.
Proof. apply log_and_rethrow_run. Qed.

Lemma embedded_items_props response items :
  embedded_items response = Some items ->
  exists embedded,
    get_prop (Some response) "_embedded" = Ok embedded /\
    get_prop embedded "firmware" = Ok (Some (JArr items)).
Proof.
  unfold embedded_items. intros H.
  destruct (get_prop (Some response) "_embedded") as [embedded|]; [|done].
  exists embedded. split; [done|].
  destruct (get_prop embedded "firmware") as [[[]|]|]; try done.
  by injection H as ->.
Qed.

Lemma array_map_prop_strings k items ss :
  mapM (string_prop k) items = Some ss ->
  array_map_prop (Some (JArr items)) k = Ok (map str ss).
Proof.
  intros H. apply mapM_Some in H. unfold array_map_prop.
  induction H as [|fw s items ss Hfw _ IH]; [done|].
  cbn [map map_result]. rewrite IH. unfold string_prop in Hfw.
  destruct (get_prop (Some fw) k) as [[[]|]|]; try done.
  by injection Hfw as ->.
Qed.

Lemma omap_id_str l : omap id (map str l) = map JStr l.
Proof. induction l as [|s l IH]; [done|]. simpl. f_equal. exact IH. Qed.

Lemma filter_undefined_str l :
  filter (fun v => is_undefined v = true) (map str l) = [].
Proof.
  induction l as [|s l IH]; [done|]. cbn [map].
  rewrite filter_cons, decide_False by done. exact IH.
Qed.

Lemma mapM_as_string l : mapM as_string (map JStr l) = Some l.
Proof. induction l as [|s l IH]; [done|]. simpl. by rewrite IH. Qed.

Lemma toSorted_str (E : Engine) l :
  toSorted (map str l) = Ok (map str (sort_strings sortAlphabetically l)).
Proof.
  unfold toSorted. rewrite omap_id_str, filter_undefined_str.
  destruct l as [|a [|b l]]; [done..|].
  change (map JStr (a :: b :: l)) with (JStr a :: JStr b :: map JStr l) at 1.
  cbv iota. rewrite mapM_as_string, app_nil_r. done.
Qed.

Lemma sorted_distinct_spec (E : Engine) (HE : EngineLaws E) values :
  distinct_sorted E values
    (map str (sort_strings sortAlphabetically (distinct values))).
Proof.
  destruct (distinct_spec values) as [Hnd Hin].
  exists (sort_strings sortAlphabetically (distinct values)).
  split; [done|]. split; [by rewrite sort_strings_perm|].
  split; [intros x; by rewrite sort_strings_perm|].
  apply (sort_strings_Sorted sortAlphabetically).
  intros a b. apply localeCompare_asym.
Qed.

Lemma getInitialFilterValues_strings (E : Engine) net st st'
    response items ps pls chs :
  fetchLatestFirmware net st = (Ok response, st') ->
  embedded_items response = Some items ->
  mapM (string_prop "product") items = Some ps ->
  mapM (string_prop "platform") items = Some pls ->
  mapM (string_prop "channel") items = Some chs ->
  let listing values :=
    map str (sort_strings sortAlphabetically (distinct values)) in
  getInitialFilterValues net st
  = (Ok {| products := listing ps; platforms := listing pls;
           channels := listing chs |}, st').
Proof.
  intros Hfetch Hitems Hps Hpls Hchs listing.
  destruct (embedded_items_props _ _ Hitems) as (embedded & Hemb & Hfw).
  unfold getInitialFilterValues, try_catch, bind, lift, ret.
  rewrite Hfetch, Hemb, Hfw.
  rewrite (array_map_prop_strings _ _ _ Hps).
  rewrite (array_map_prop_strings _ _ _ Hpls).
  rewrite (array_map_prop_strings _ _ _ Hchs).
  by rewrite !new_Set_str, !toSorted_str.
Qed.

(** C6: [getInitialFilterValues] always ends in a value, and whenever the
    fetch of the latest firmware throws, whatever the error, that value is
    the three empty lists. *)
Theorem getInitialFilterValues_never_throws (E : Engine) net st :
  (exists values st', getInitialFilterValues net st = (Ok values, st')) /\
  (forall e st',
     fetchLatestFirmware net st = (Throw e, st') ->
     getInitialFilterValues net st
     = (Ok {| products := []; platforms := []; channels := [] |}, st')).
Proof.
  split.
  - unfold getInitialFilterValues, try_catch.
    match goal with |- context [match ?m st with _ => _ end] =>
      destruct (m st) as [[values|e] st'] end.
    + by exists values, st'.
    + by exists no_filter_values, st'.
  - intros e st' Hfail.
    unfold getInitialFilterValues, try_catch, bind. by rewrite Hfail.
Qed.

Lemma getInitialFilterValues_never_throws_witness :
  @getInitialFilterValues ascii_engine unreachable_network initial_state
  = (Ok {| products := []; platforms := []; channels := [] |},
     State ∅ [firmwareLatestUrl]).
Proof.
  destruct (getInitialFilterValues_never_throws ascii_engine
              unreachable_network initial_state) as [_ Hfail].
  apply (Hfail (TypeError "Failed to fetch")).
  reflexivity.
Defined.

(** C7: on a firmware-latest response, that is one whose
    [_embedded.firmware] is an array of items with a string for [product],
    [platform] and [channel], the three lists are the distinct products,
    platforms and channels of the items, each in ascending order of the
    lower-cased values; items with the products [B], [a], [C] give the
    products [a], [B], [C]. *)
Theorem getInitialFilterValues_distinct_sorted
    (E : Engine) (HE : EngineLaws E) net st st' response items ps pls chs :
  fetchLatestFirmware net st = (Ok response, st') ->
  embedded_items response = Some items ->
  mapM (string_prop "product") items = Some ps ->
  mapM (string_prop "platform") items = Some pls ->
  mapM (string_prop "channel") items = Some chs ->
  exists values,
    getInitialFilterValues net st = (Ok values, st') /\
    distinct_sorted E ps (products values) /\
    distinct_sorted E pls (platforms values) /\
    distinct_sorted E chs (channels values) /\
    (collates_abc E -> ps = ["B"; "a"; "C"] ->
     products values = [str "a"; str "B"; str "C"]).
Proof.
  intros Hfetch Hitems Hps Hpls Hchs. eexists.
  split; [by eapply getInitialFilterValues_strings|].
  cbn [products platforms channels].
  repeat (split; [by apply sorted_distinct_spec|]).
  intros (Ha & Hb & Hc & Hac & Hba & Hbc) ->.
  change (distinct ["B"; "a"; "C"]) with ["B"; "a"; "C"].
  cbn [sort_strings fold_right insert_sorted]. unfold sortAlphabetically.
  rewrite Ha, Hc, Hac. cbn [insert_sorted].
  by rewrite Ha, Hb, Hc, Hba, Hbc.
Qed.

Lemma ascii_engine_laws : EngineLaws ascii_engine.
Proof.
  constructor. intros a b. simpl.
  rewrite (String.compare_antisym b a). by intros ->.
Qed.

Lemma getInitialFilterValues_distinct_sorted_witness :
  exists values,
    @getInitialFilterValues ascii_engine catalogue_network initial_state
    = (Ok values,
       State (<[firmwareLatestUrl := response_to_json catalogue]> ∅)
             [firmwareLatestUrl]) /\
    products values = [str "a"; str "B"; str "C"] /\
    distinct_sorted ascii_engine ["s5l"; "s2l"; "s5l"] (platforms values).
Proof.
  destruct (getInitialFilterValues_distinct_sorted ascii_engine
              ascii_engine_laws catalogue_network initial_state
              (State (<[firmwareLatestUrl := response_to_json catalogue]> ∅)
                     [firmwareLatestUrl])
              (response_to_json catalogue)
              (map item_to_json (embedded_firmware catalogue))
              ["B"; "a"; "C"] ["s5l"; "s2l"; "s5l"]
              ["release"; "beta"; "release"])
    as (values & Hrun & _ & Hpl & _ & Habc).
  - rewrite fetchLatestFirmware_run, cachedFetch_miss by reflexivity.
    reflexivity.
  - reflexivity.
  - reflexivity.
  - reflexivity.
  - reflexivity.
  - exists values. split; [exact Hrun|]. split; [|exact Hpl].
    apply Habc; [repeat split | reflexivity].
Defined.

(** * Further properties *)

(** ** The cache across calls *)

Lemma cachedFetch_lookup_ne net url st url' :
  url' <> url ->
  cache (cachedFetch net url st).2 !! url' = cache st !! url'.
Proof.
  intros Hne. destruct (truthy (getCached url st)) eqn:Hc.
  - by rewrite cachedFetch_hit.
  - rewrite cachedFetch_miss by done. simpl.
    destruct (net (requests st) url) as [r|e]; [|done].
    destruct (ok r); [|done].
    destruct (body r) as [data|e]; [|done].
    simpl. by rewrite lookup_insert_ne.
Qed.

(** X1: a call leaves the entries of every other URL as they were: keys are
    compared exactly and only the requested URL is ever written. *)
Theorem cachedFetch_other_urls net url st url' :
  url' <> url ->
  cache (cachedFetch net url st).2 !! url' = cache st !! url'.
Proof. apply cachedFetch_lookup_ne. Qed.

Lemma cachedFetch_other_urls_witness :
  cache (cachedFetch catalogue_network firmwareLatestUrl initial_state).2
    !! firmwareByIdUrl "abc"
  = None.
Proof.
  rewrite (cachedFetch_other_urls catalogue_network firmwareLatestUrl
             initial_state (firmwareByIdUrl "abc")).
  - reflexivity.
  - discriminate.
Defined.

Lemma cachedFetch_returns_stored_aux net url st v st' :
  cachedFetch net url st = (Ok v, st') ->
  cache st' !! url = Some v.
Proof.
  intros Hrun. destruct (truthy (getCached url st)) eqn:Hc.
  - rewrite cachedFetch_hit in Hrun by done. injection Hrun as <- <-.
    by apply getCached_truthy_lookup.
  - rewrite cachedFetch_miss in Hrun by done. simpl in Hrun.
    destruct (net (requests st) url) as [r|e]; [|discriminate].
    destruct (ok r); [|discriminate].
    destruct (body r) as [data|e]; [|discriminate].
    injection Hrun as <- <-. simpl. apply lookup_insert_eq.
Qed.

(** X2: whatever a successful call returns is, after the call, the entry of
    its URL, whether it came from the cache or from the network. *)
Theorem cachedFetch_returns_stored net url st v st' :
  cachedFetch net url st = (Ok v, st') ->
  cache st' !! url = Some v.
Proof. apply cachedFetch_returns_stored_aux. Qed.

Lemma cachedFetch_returns_stored_witness :
  cache (State (<[firmwareLatestUrl := response_to_json catalogue]> ∅)
               [firmwareLatestUrl]) !! firmwareLatestUrl
  = Some (response_to_json catalogue).
Proof.
  apply (cachedFetch_returns_stored catalogue_network firmwareLatestUrl
           initial_state).
  rewrite cachedFetch_miss by reflexivity. reflexivity.
Defined.

Lemma cachedFetch_hit_or_request net url st :
  truthy (getCached url st) = true /\ (cachedFetch net url st).2 = st \/
  truthy (getCached url st) = false /\
  requests (cachedFetch net url st).2 = requests st ++ [url].
Proof.
  destruct (truthy (getCached url st)) eqn:Hc.
  - left. by rewrite cachedFetch_hit.
  - right. split; [done|]. rewrite cachedFetch_miss by done. simpl.
    destruct (net (requests st) url) as [r|e]; [|done].
    destruct (ok r); [|done]. by destruct (body r).
Qed.

(** X3: a call either hits, and then changes nothing at all, or misses, and
    then sends exactly one request, for its own URL. *)
Theorem cachedFetch_at_most_one_request net url st :
  truthy (getCached url st) = true /\ (cachedFetch net url st).2 = st \/
  truthy (getCached url st) = false /\
  requests (cachedFetch net url st).2 = requests st ++ [url].
Proof. apply cachedFetch_hit_or_request. Qed.

(** ** Every operation is one cached fetch *)

Lemma fetchFirmware_run net filters extra st :
  fetchFirmware net filters extra st
  = cachedFetch net (firmwareUrl filters extra) st.
Proof. apply log_and_rethrow_run. Qed.

Lemma getInitialFilterValues_state (E : Engine) net st :
  (getInitialFilterValues net st).2 = (fetchLatestFirmware net st).2.
Proof.
  unfold getInitialFilterValues, try_catch, bind, lift, ret.
  destruct (fetchLatestFirmware net st) as [[response|e] st']; [|done].
  repeat match goal with
         | |- context [match ?r with Ok _ => _ | Throw _ => _ end] =>
             destruct r; try done
         end.
Qed.

Lemma getFirmwareById_state net id st :
  (getFirmwareById net id st).2
  = (cachedFetch net (firmwareByIdUrl id) st).2.
Proof.
  rewrite getFirmwareById_unfold.
  destruct (cachedFetch net (firmwareByIdUrl id) st) as [[item|e] st'];
    [done|].
  by destruct (includes "404" (err_message e)).
Qed.

Lemma call_state_run (E : Engine) net c st :
  call_state net c st = (cachedFetch net (call_url c) st).2.
Proof.
  destruct c as [filters extra| |term filters| |id]; simpl.
  - by rewrite fetchFirmware_run.
  - by rewrite fetchLatestFirmware_run.
  - unfold searchFirmware. by rewrite fetchFirmware_run.
  - by rewrite getInitialFilterValues_state, fetchLatestFirmware_run.
  - apply getFirmwareById_state.
Qed.

(** X4: whatever it returns or throws, every query operation leaves the
    state that one [cachedFetch] on its URL leaves: the cache is written
    nowhere else, and no operation sends a request of its own. *)
Theorem call_state_is_cachedFetch (E : Engine) net c st :
  call_state net c st = (cachedFetch net (call_url c) st).2.
Proof. apply call_state_run. Qed.

(** ** Sessions *)

Lemma cachedFetch_keeps_truthy net url st u v :
  cache st !! u = Some v -> truthy v = true ->
  cache (cachedFetch net url st).2 !! u = Some v.
Proof.
  intros Hu Hv. destruct (decide (u = url)) as [->|Hne].
  - rewrite cachedFetch_hit; [done|].
    unfold getCached. by rewrite Hu, Hv.
  - by rewrite cachedFetch_lookup_ne.
Qed.

Lemma cachedFetch_keeps_keys net url st u :
  is_Some (cache st !! u) ->
  is_Some (cache (cachedFetch net url st).2 !! u).
Proof.
  intros Hu. destruct (decide (u = url)) as [->|Hne].
  - destruct (truthy (getCached url st)) eqn:Hc.
    + by rewrite cachedFetch_hit.
    + rewrite cachedFetch_miss by done. simpl.
      destruct (net (requests st) url) as [r|e]; [|done].
      destruct (ok r); [|done].
      destruct (body r) as [data|e]; [|done].
      simpl. rewrite lookup_insert_eq. by eexists.
  - by rewrite cachedFetch_lookup_ne.
Qed.

Lemma session_cons (E : Engine) net c calls st :
  session net (c :: calls) st = session net calls (call_state net c st).
Proof. reflexivity. Qed.

(** X5: nothing that any sequence of operations does evicts an entry, and an
    entry whose value is truthy is never replaced: it is still the entry of
    its URL after the sequence. *)
Theorem session_keeps_entries (E : Engine) net calls st u :
  (is_Some (cache st !! u) ->
   is_Some (cache (session net calls st) !! u)) /\
  (forall v, cache st !! u = Some v -> truthy v = true ->
             cache (session net calls st) !! u = Some v).
Proof.
  revert st. induction calls as [|c calls IH]; intros st; [done|].
  rewrite session_cons, call_state_run.
  destruct (IH (cachedFetch net (call_url c) st).2) as [IHkeys IHval].
  split.
  - intros Hu. by apply IHkeys, cachedFetch_keeps_keys.
  - intros v Hu Hv. apply IHval; [|done]. by apply cachedFetch_keeps_truthy.
Qed.

Lemma session_keeps_entries_witness :
  cache (@session ascii_engine unreachable_network
           [call_getInitialFilterValues; call_getFirmwareById "abc";
            call_fetchFirmware no_filters []]
           (State (<[firmwareLatestUrl := response_to_json catalogue]> ∅) []))
    !! firmwareLatestUrl
  = Some (response_to_json catalogue).
Proof.
  apply (session_keeps_entries ascii_engine unreachable_network).
  - apply lookup_insert_eq.
  - reflexivity.
Defined.

Lemma session_requests_aux (E : Engine) net calls st :
  exists sent,
    requests (session net calls st) = requests st ++ sent /\
    (length sent <= length calls)%nat /\
    (forall u, u ∈ sent -> exists c, c ∈ calls /\ u = call_url c) /\
    (forall u v, cache st !! u = Some v -> truthy v = true -> u ∉ sent).
Proof.
  revert st. induction calls as [|c calls IH]; intros st.
  - exists []. rewrite app_nil_r. repeat split; try done.
    + intros u Hu. by apply elem_of_nil in Hu.
    + intros u v _ _ Hu. by apply elem_of_nil in Hu.
  - rewrite session_cons, call_state_run.
    destruct (IH (cachedFetch net (call_url c) st).2)
      as (sent & Hreq & Hlen & Hfrom & Hfresh).
    destruct (cachedFetch_hit_or_request net (call_url c) st)
      as [[Hhit Hst]|[Hmiss Hst]].
    + rewrite Hst in *. exists sent. split; [done|]. split; [simpl; lia|].
      split; [|done].
      intros u Hu. destruct (Hfrom u Hu) as (c' & Hc' & ->).
      exists c'. split; [by right | done].
    + exists (call_url c :: sent). rewrite Hreq, Hst, <- app_assoc.
      split; [done|]. split; [simpl; lia|]. split.
      * intros u [->|Hu]%elem_of_cons.
        -- exists c. split; [by left | done].
        -- destruct (Hfrom u Hu) as (c' & Hc' & ->).
           exists c'. split; [by right | done].
      * intros u v Hu Hv [->|Hin]%elem_of_cons.
        -- unfold getCached in Hmiss. rewrite Hu, Hv in Hmiss. congruence.
        -- eapply Hfresh; [|done..].
           by apply cachedFetch_keeps_truthy.
Qed.

(** X6: a sequence of operations only appends to the log of requests, sends
    at most one request per operation, and each request it sends is for the
    URL of one of its operations. *)
Theorem session_requests (E : Engine) net calls st :
  exists sent,
    requests (session net calls st) = requests st ++ sent /\
    (length sent <= length calls)%nat /\
    (forall u, u ∈ sent -> exists c, c ∈ calls /\ u = call_url c).
Proof.
  destruct (session_requests_aux E net calls st)
    as (sent & Hreq & Hlen & Hfrom & _).
  by exists sent.
Qed.

Lemma session_requests_witness :
  exists sent,
    requests (@session ascii_engine unreachable_network
                [call_getInitialFilterValues; call_fetchLatestFirmware]
                initial_state) = [] ++ sent /\
    (length sent <= 2)%nat /\
    (forall u, u ∈ sent ->
       exists c, c ∈ [call_getInitialFilterValues; call_fetchLatestFirmware]
                 /\ u = @call_url ascii_engine c).
Proof.
  exact (session_requests ascii_engine unreachable_network
           [call_getInitialFilterValues; call_fetchLatestFirmware]
           initial_state).
Defined.

(** X7: once a URL has a truthy entry, no operation of whatever kind sends a
    request for it again. *)
Theorem session_never_refetches (E : Engine) net calls st u v sent :
  cache st !! u = Some v -> truthy v = true ->
  requests (session net calls st) = requests st ++ sent ->
  u ∉ sent.
Proof.
  intros Hu Hv Hreq.
  destruct (session_requests_aux E net calls st)
    as (sent' & Hreq' & _ & _ & Hfresh).
  rewrite Hreq' in Hreq. apply app_inv_head in Hreq as <-.
  by eapply Hfresh.
Qed.

Lemma session_never_refetches_witness :
  firmwareLatestUrl ∉ [firmwareByIdUrl "abc"].
Proof.
  apply (session_never_refetches ascii_engine unreachable_network
           [call_getInitialFilterValues; call_getFirmwareById "abc";
            call_fetchLatestFirmware]
           (State (<[firmwareLatestUrl := response_to_json catalogue]> ∅) [])
           firmwareLatestUrl (response_to_json catalogue)).
  - apply lookup_insert_eq.
  - reflexivity.
  - reflexivity.
Defined.

Lemma cachedFetch_cached_requested net url st :
  (forall u, is_Some (cache st !! u) -> u ∈ requests st) ->
  forall u, is_Some (cache (cachedFetch net url st).2 !! u) ->
            u ∈ requests (cachedFetch net url st).2.
Proof.
  intros Hinv u.
  destruct (cachedFetch_hit_or_request net url st) as [[_ ->]|[_ Hreq]];
    [apply Hinv|].
  rewrite Hreq, elem_of_app, list_elem_of_singleton.
  destruct (decide (u = url)) as [->|Hne]; [by right|].
  rewrite cachedFetch_lookup_ne by done. intros Hu. left. by apply Hinv.
Qed.

(** X8: in a service that started empty, every URL that has an entry in the
    cache is a URL that was requested. *)
Theorem session_cached_were_requested (E : Engine) net calls u :
  is_Some (cache (session net calls initial_state) !! u) ->
  u ∈ requests (session net calls initial_state).
Proof.
  assert (Hgen : forall st,
    (forall u, is_Some (cache st !! u) -> u ∈ requests st) ->
    forall u, is_Some (cache (session net calls st) !! u) ->
              u ∈ requests (session net calls st)).
  { induction calls as [|c calls IH]; intros st Hinv; [done|].
    rewrite session_cons, call_state_run.
    apply IH. by apply cachedFetch_cached_requested. }
  apply Hgen. intros u' Hu'. simpl in Hu'. rewrite lookup_empty in Hu'.
  by destruct Hu'.
Qed.

Lemma session_cached_were_requested_witness :
  firmwareLatestUrl
  ∈ requests (@session ascii_engine catalogue_network
                [call_getInitialFilterValues] initial_state).
Proof.
  apply (session_cached_were_requested ascii_engine catalogue_network
           [call_getInitialFilterValues] firmwareLatestUrl).
  vm_compute. by eexists.
Defined.

(** ** Lookups and the cache *)

Lemma getFirmwareById_ok_cases net id st v st' :
  getFirmwareById net id st = (Ok v, st') ->
  cachedFetch net (firmwareByIdUrl id) st = (Ok v, st') \/
  v = JNull /\ exists e, cachedFetch net (firmwareByIdUrl id) st = (Throw e, st').
Proof.
  rewrite getFirmwareById_unfold.
  destruct (cachedFetch net (firmwareByIdUrl id) st) as [[item|e] st1].
  - intros [= <- <-]. by left.
  - destruct (includes "404" (err_message e)); [|discriminate].
    intros [= <- <-]. right. split; [done | by exists e].
Qed.

Lemma cachedFetch_falsy_still_miss net url st v st' :
  cachedFetch net url st = (Ok v, st') -> truthy v = false ->
  truthy (getCached url st') = false.
Proof.
  intros Hrun Hv.
  apply cachedFetch_returns_stored_aux in Hrun.
  unfold getCached. rewrite Hrun, Hv. done.
Qed.

(** X9: a lookup that answered [null], or any other falsy value, has cached
    nothing that counts: the next lookup of the same identifier sends the
    request again. A confirmed absence is asked for every time. *)
Theorem getFirmwareById_null_asked_again net id st v st' :
  getFirmwareById net id st = (Ok v, st') ->
  truthy v = false ->
  forall net',
    requests (getFirmwareById net' id st').2
    = requests st' ++ [firmwareByIdUrl id].
Proof.
  intros Hrun Hv net'.
  assert (Hmiss : truthy (getCached (firmwareByIdUrl id) st') = false).
  { apply getFirmwareById_ok_cases in Hrun as [Hok|[_ [e Hthrow]]].
    - by eapply cachedFetch_falsy_still_miss.
    - apply cachedFetch_throw_cache in Hthrow as [Hmiss ->]. exact Hmiss. }
  rewrite getFirmwareById_state.
  destruct (cachedFetch_hit_or_request net' (firmwareByIdUrl id) st')
    as [[Hhit _]|[_ Hreq]]; [congruence | exact Hreq].
Qed.

Lemma getFirmwareById_null_asked_again_witness :
  requests (getFirmwareById unreachable_network "abc"
              (State ∅ [firmwareByIdUrl "abc"])).2
  = [firmwareByIdUrl "abc"; firmwareByIdUrl "abc"].
Proof.
  generalize unreachable_network.
  apply (getFirmwareById_null_asked_again
           (fun _ _ => Resolve (Response 404 "Not Found" (Ok JNull)))
           "abc" initial_state JNull).
  - rewrite getFirmwareById_unfold, cachedFetch_miss by reflexivity.
    reflexivity.
  - reflexivity.
Defined.

(** X10: a lookup that found an item (any truthy value) answers the next
    lookup of the same identifier from the cache: same value, state
    untouched, whatever the remote end would say. *)
Theorem getFirmwareById_found_is_cached net net' id st v st' :
  getFirmwareById net id st = (Ok v, st') ->
  truthy v = true ->
  getFirmwareById net' id st' = (Ok v, st').
Proof.
  intros Hrun Hv.
  apply getFirmwareById_ok_cases in Hrun as [Hok|[-> _]]; [|discriminate].
  rewrite getFirmwareById_unfold.
  by rewrite (cachedFetch_idempotent_truthy _ net' _ _ _ _ Hok Hv).
Qed.

Lemma getFirmwareById_found_is_cached_witness :
  getFirmwareById unreachable_network "abc"
    (State (<[firmwareByIdUrl "abc" := sample_item_json]> ∅)
           [firmwareByIdUrl "abc"])
  = (Ok sample_item_json,
     State (<[firmwareByIdUrl "abc" := sample_item_json]> ∅)
           [firmwareByIdUrl "abc"]).
Proof.
  apply (getFirmwareById_found_is_cached
           (fun _ _ => Resolve (Response 200 "OK" (Ok sample_item_json)))
           unreachable_network "abc" initial_state).
  - rewrite getFirmwareById_unfold, cachedFetch_miss by reflexivity.
    reflexivity.
  - reflexivity.
Defined.

(** ** The three endpoints *)

Lemma append_inv_head (a b c : string) : a +:+ b = a +:+ c -> b = c.
Proof.
  induction a as [|x a IH]; [done|]. rewrite !append_cons.
  intros [= H]. by apply IH.
Qed.

Lemma firmwareUrl_question filters extra :
  firmwareUrl filters extra
  = (baseUrl +:+ firmwareEndpoint) +:+ "?"
    +:+ firmwareQueryString filters extra.
Proof.
  unfold firmwareUrl. rewrite firmwareQueryString_nonempty.
  by rewrite append_assoc.
Qed.

(** X11: the URLs of the three endpoints are different for all arguments, so
    a listing, the latest firmware and a lookup by identifier never share a
    cache entry. *)
Theorem endpoint_urls_distinct filters extra id :
  firmwareUrl filters extra <> firmwareLatestUrl /\
  firmwareUrl filters extra <> firmwareByIdUrl id /\
  firmwareByIdUrl id <> firmwareLatestUrl.
Proof.
  rewrite firmwareUrl_question.
  change firmwareLatestUrl with ((baseUrl +:+ firmwareEndpoint) +:+ "-latest").
  replace (firmwareByIdUrl id)
    with ((baseUrl +:+ firmwareEndpoint) +:+ "/" +:+ id)
    by (unfold firmwareByIdUrl; by rewrite append_assoc).
  repeat split; intros H%append_inv_head; discriminate H.
Qed.

(** ** Filter values: edge cases and composition *)

Lemma getInitialFilterValues_no_items (E : Engine) net st st' response :
  fetchLatestFirmware net st = (Ok response, st') ->
  embedded_items response = None \/ embedded_items response = Some [] ->
  getInitialFilterValues net st = (Ok no_filter_values, st').
Proof.
  intros Hfetch Hitems.
  unfold getInitialFilterValues, try_catch, bind, lift, ret.
  rewrite Hfetch. unfold embedded_items in Hitems.
  destruct (get_prop (Some response) "_embedded") as [embedded|e]; [|done].
  destruct (get_prop embedded "firmware") as [firmware|e]; [|done].
  destruct firmware as [[| | | |items|]|]; try done.
  destruct Hitems as [Hnone|[= ->]]; [discriminate|]. reflexivity.
Qed.

(** X12: a response that is not of the catalogue's shape (no
    [_embedded.firmware] array) and a catalogue without items both give the
    three empty lists, the very result of a failed fetch. *)
Theorem getInitialFilterValues_malformed_or_empty
    (E : Engine) net st st' response :
  fetchLatestFirmware net st = (Ok response, st') ->
  embedded_items response = None \/ embedded_items response = Some [] ->
  getInitialFilterValues net st
  = (Ok {| products := []; platforms := []; channels := [] |}, st').
Proof. apply getInitialFilterValues_no_items. Qed.

Lemma getInitialFilterValues_malformed_or_empty_witness :
  @getInitialFilterValues ascii_engine
    (fun _ _ => Resolve (Response 200 "OK" (Ok (JObj [("message", JStr "maintenance")]))))
    initial_state
  = (Ok {| products := []; platforms := []; channels := [] |},
     State (<[firmwareLatestUrl := JObj [("message", JStr "maintenance")]]> ∅)
           [firmwareLatestUrl]).
Proof.
  apply (getInitialFilterValues_malformed_or_empty ascii_engine _
           initial_state _ (JObj [("message", JStr "maintenance")])).
  - rewrite fetchLatestFirmware_run, cachedFetch_miss by reflexivity.
    reflexivity.
  - left. reflexivity.
Defined.

(** X13: the filter values and the latest firmware come from one request:
    after [getInitialFilterValues] has fetched a truthy response,
    [fetchLatestFirmware] returns that response from the cache and the log
    holds the single request. *)
Theorem filter_values_share_latest (E : Engine) net st r v :
  truthy (getCached firmwareLatestUrl st) = false ->
  net (requests st) firmwareLatestUrl = Resolve r ->
  ok r = true -> body r = Ok v -> truthy v = true ->
  let st1 := (getInitialFilterValues net st).2 in
  requests st1 = requests st ++ [firmwareLatestUrl] /\
  forall net', fetchLatestFirmware net' st1 = (Ok v, st1).
Proof.
  intros Hmiss Hnet Hok Hbody Hv st1.
  assert (Hrun : cachedFetch net firmwareLatestUrl st
                 = (Ok v, State (<[firmwareLatestUrl := v]> (cache st))
                                (requests st ++ [firmwareLatestUrl]))).
  { rewrite cachedFetch_miss by done. simpl. by rewrite Hnet, Hok, Hbody. }
  assert (Hst1 : st1 = State (<[firmwareLatestUrl := v]> (cache st))
                             (requests st ++ [firmwareLatestUrl])).
  { unfold st1.
    by rewrite getInitialFilterValues_state, fetchLatestFirmware_run, Hrun. }
  rewrite Hst1. split; [done|]. intros net'.
  rewrite fetchLatestFirmware_run.
  by apply (cachedFetch_idempotent_truthy net net' _ st).
Qed.

Lemma filter_values_share_latest_witness :
  requests (@getInitialFilterValues ascii_engine catalogue_network
              initial_state).2 = [firmwareLatestUrl] /\
  forall net',
    fetchLatestFirmware net'
      (@getInitialFilterValues ascii_engine catalogue_network initial_state).2
    = (Ok (response_to_json catalogue),
       (@getInitialFilterValues ascii_engine catalogue_network
          initial_state).2).
Proof.
  apply (filter_values_share_latest ascii_engine catalogue_network
           initial_state
           (Response 200 "OK" (Ok (response_to_json catalogue))));
    reflexivity.
Defined.

(** ** The query builder: what reaches the URL *)

Lemma decode_unit_encode c rest :
  decode_unit (urlencode_unit c +:+ rest) = Some (c, rest).
Proof. destruct c as [[] [] [] [] [] [] [] []]; reflexivity. Qed.

(** The serializer loses nothing: two texts with the same serialization are
    the same text. *)
Lemma urlencode_inj s1 s2 : urlencode s1 = urlencode s2 -> s1 = s2.
Proof.
  revert s2. induction s1 as [|c1 s1 IH]; intros [|c2 s2]; cbn [urlencode].
  - done.
  - intros H. apply (f_equal decode_unit) in H.
    rewrite decode_unit_encode in H. discriminate H.
  - intros H. apply (f_equal decode_unit) in H.
    rewrite decode_unit_encode in H. discriminate H.
  - intros H. apply (f_equal decode_unit) in H.
    rewrite !decode_unit_encode in H. injection H as -> H.
    f_equal. by apply IH.
Qed.

Lemma num_to_string_inj n m : num_to_string n = num_to_string m -> n = m.
Proof.
  unfold num_to_string. intros H. apply DecimalZ.to_int_inj.
  assert (Hnn : forall z, Z.to_int z <> Decimal.Pos Decimal.Nil /\
                          Z.to_int z <> Decimal.Neg Decimal.Nil).
  { intros [|p|p]; simpl; split; try discriminate;
      intros [= Hp]; by apply DecimalPos.Unsigned.to_uint_nonnil in Hp. }
  apply (f_equal NilZero.int_of_string) in H.
  rewrite !NilZero.isi in H by apply Hnn. by injection H.
Qed.


Lemma append_split P a a' b b' :
  string_forall P a = true -> string_forall P a' = true ->
  head_outside P b = true -> head_outside P b' = true ->
  a +:+ b = a' +:+ b' -> a = a' /\ b = b'.
Proof.
  revert a'. induction a as [|x a IH]; intros [|x' a'] Ha Ha' Hb Hb'.
  - done.
  - rewrite (append_cons x' a' b'). change ("" +:+ b) with b.
    intros ->. simpl in *.
    apply andb_prop in Ha' as [Hx _]. by rewrite Hx in Hb.
  - rewrite (append_cons x a b). change ("" +:+ b') with b'.
    intros <-. simpl in *.
    apply andb_prop in Ha as [Hx _]. by rewrite Hx in Hb'.
  - rewrite (append_cons x a b), (append_cons x' a' b').
    intros [= -> H]. simpl in *.
    apply andb_prop in Ha as [_ Ha]. apply andb_prop in Ha' as [_ Ha'].
    destruct (IH a' Ha Ha' Hb Hb' H) as [-> ->]. done.
Qed.

Lemma sort_fragment_effective filters :
  sort_fragment (sort filters)
  = match effective_sort filters with
    | Some s => "&sort=" +:+ urlencode s
    | None => ""
    end.
Proof.
  unfold sort_fragment, effective_sort.
  destruct (sort filters) as [s|]; [|done]. by destruct (nonempty s).
Qed.

Lemma sort_fragment_head filters :
  head_outside num_char (sort_fragment (sort filters)) = true.
Proof.
  rewrite sort_fragment_effective. by destruct (effective_sort filters).
Qed.

Lemma firmwareParams_same f1 f2 :
  firmwareParams f1 = firmwareParams f2 <->
  num_or (limit f1) 50 = num_or (limit f2) 50 /\
  num_or (offset f1) 0 = num_or (offset f2) 0 /\
  effective_sort f1 = effective_sort f2.
Proof.
  rewrite !firmwareParams_eq, !sort_fragment_effective. split.
  - intros H. apply append_inv_head in H.
    apply (append_split num_char) in H as [Hl H];
      [|apply num_to_string_chars..|done|done].
    apply append_inv_head in H.
    apply (append_split num_char) in H as [Ho H];
      [|apply num_to_string_chars..| |].
    + split; [by apply num_to_string_inj|].
      split; [by apply num_to_string_inj|].
      destruct (effective_sort f1) as [s1|], (effective_sort f2) as [s2|];
        try done.
      apply append_inv_head in H. f_equal. by apply urlencode_inj.
    + by destruct (effective_sort f1).
    + by destruct (effective_sort f2).
  - by intros (-> & -> & ->).
Qed.

(** X14: two listings with the same conditions are the same request exactly
    when their effective limit (50 when unset or zero), offset (0 when
    unset) and sort order (none when unset or empty) agree; no two pages or
    orderings share a cache entry. *)
Theorem firmwareUrl_same_request f1 f2 e1 e2 :
  firmwareConditions f1 e1 = firmwareConditions f2 e2 ->
  (firmwareUrl f1 e1 = firmwareUrl f2 e2 <->
   num_or (limit f1) 50 = num_or (limit f2) 50 /\
   num_or (offset f1) 0 = num_or (offset f2) 0 /\
   effective_sort f1 = effective_sort f2).
Proof.
  intros Hc. rewrite <- firmwareParams_same.
  rewrite !firmwareUrl_question, !firmwareQueryString_eq, Hc.
  destruct (firmwareConditions f2 e2) as [|c cs].
  - split; [|by intros ->]. intros H. by do 2 apply append_inv_head in H.
  - split; [|by intros ->]. intros H. by do 4 apply append_inv_head in H.
Qed.

Lemma firmwareUrl_same_request_witness :
  firmwareUrl paging_only_filters []
  = firmwareUrl
      {| product := None; platform := None; channel := None;
         version := Some "v4"; limit := Some 10000; offset := Some 0;
         sort := Some "-created" |} [] /\
  firmwareUrl paging_only_filters [] <> firmwareUrl no_filters [].
Proof.
  split.
  - apply (firmwareUrl_same_request paging_only_filters _ [] []);
      [reflexivity|]. repeat split.
  - intros H.
    apply (firmwareUrl_same_request paging_only_filters no_filters [] [])
      in H as [Hlimit _]; [discriminate Hlimit | reflexivity].
Defined.

Lemma starts_with_app needle rest : starts_with needle (needle +:+ rest) = true.
Proof.
  induction needle as [|c needle IH]; [done|].
  rewrite append_cons. simpl. by rewrite Ascii.eqb_refl, IH.
Qed.

Lemma starts_with_app_l needle a b :
  starts_with needle a = true -> starts_with needle (a +:+ b) = true.
Proof.
  revert a. induction needle as [|c needle IH]; intros a; [done|].
  destruct a as [|x a]; [discriminate|]. rewrite append_cons. simpl.
  intros [-> H]%andb_prop. simpl. by apply IH.
Qed.

Lemma includes_app_l needle a b :
  includes needle a = true -> includes needle (a +:+ b) = true.
Proof.
  induction a as [|x a IH].
  - simpl. rewrite orb_false_r. destruct needle; [|discriminate].
    intros _. by destruct b.
  - rewrite append_cons, !includes_cons.
    intros [H|H]%orb_prop.
    + change (String x (a +:+ b)) with (String x a +:+ b).
      by rewrite starts_with_app_l.
    + rewrite IH by done. apply orb_true_r.
Qed.

Lemma includes_app_r needle a b :
  includes needle b = true -> includes needle (a +:+ b) = true.
Proof.
  intros H. induction a as [|x a IH]; [done|].
  rewrite append_cons, includes_cons, IH. apply orb_true_r.
Qed.

Lemma includes_self needle : includes needle needle = true.
Proof.
  assert (H : starts_with needle needle = true).
  { induction needle as [|c needle IH]; [done|].
    simpl. by rewrite Ascii.eqb_refl, IH. }
  destruct needle; [done|]. by rewrite includes_cons, H.
Qed.

Lemma buildFilterQuery_includes c cs :
  c ∈ cs ->
  includes (condition_to_string c) (buildFilterQuery cs) = true.
Proof.
  unfold buildFilterQuery. induction cs as [|c' cs IH]; intros Hc.
  - by apply elem_of_nil in Hc.
  - apply elem_of_cons in Hc as [<-|Hc].
    + destruct cs as [|c'' cs]; cbn [map join].
      * apply includes_self.
      * apply includes_app_l, includes_self.
    + destruct cs as [|c'' cs]; [by apply elem_of_nil in Hc|].
      cbn [map join]. cbn [map] in IH.
      do 2 apply includes_app_r. by apply IH.
Qed.

(** X15: every condition, a caller's extra one or one made from a simple
    filter, stands in the URL exactly as [filter=operator~~field~~value],
    the value unescaped: the conditions bypass the serializer that the
    standard parameters go through. *)
Theorem conditions_verbatim_in_url filters extra c :
  c ∈ firmwareConditions filters extra ->
  includes ("filter=" +:+ operator_to_string (op c) +:+ "~~" +:+ field c
            +:+ "~~" +:+ value c)
           (firmwareUrl filters extra) = true.
Proof.
  intros Hc. rewrite firmwareUrl_question, firmwareQueryString_eq.
  destruct (firmwareConditions filters extra) as [|c' cs] eqn:Hcs;
    [by apply elem_of_nil in Hc|].
  do 2 apply includes_app_r. apply includes_app_l.
  by apply buildFilterQuery_includes.
Qed.

Lemma conditions_verbatim_in_url_witness :
  includes "filter=eq~~product~~G4 Pro&x"
    (firmwareUrl
       {| product := Some "G4 Pro&x"; platform := None; channel := None;
          version := None; limit := None; offset := None; sort := None |} [])
  = true.
Proof.
  apply (conditions_verbatim_in_url _ []
           {| field := "product"; op := op_eq; value := "G4 Pro&x" |}).
  apply list_elem_of_singleton. reflexivity.
Defined.

(** ** The standard parameters keep their shape *)

Lemma count_char_app c a b :
  count_char c (a +:+ b) = (count_char c a + count_char c b)%nat.
Proof.
  induction a as [|x a IH]; [done|]. rewrite append_cons. simpl.
  rewrite IH. lia.
Qed.

Lemma count_urlencode_unit_eq x : count_char "=" (urlencode_unit x) = 0%nat.
Proof. destruct x as [[] [] [] [] [] [] [] []]; reflexivity. Qed.

Lemma count_urlencode_unit_amp x : count_char "&" (urlencode_unit x) = 0%nat.
Proof. destruct x as [[] [] [] [] [] [] [] []]; reflexivity. Qed.

Lemma count_urlencode s :
  count_char "=" (urlencode s) = 0%nat /\ count_char "&" (urlencode s) = 0%nat.
Proof.
  induction s as [|x s [IHe IHa]]; [done|]. cbn [urlencode].
  rewrite !count_char_app, count_urlencode_unit_eq, count_urlencode_unit_amp.
  by rewrite IHe, IHa.
Qed.

Lemma count_encoded_pair (kv : string * string) :
  count_char "=" (urlencode kv.1 +:+ "=" +:+ urlencode kv.2) = 1%nat /\
  count_char "&" (urlencode kv.1 +:+ "=" +:+ urlencode kv.2) = 0%nat.
Proof.
  rewrite !count_char_app.
  destruct (count_urlencode kv.1) as [-> ->].
  destruct (count_urlencode kv.2) as [-> ->]. done.
Qed.

Lemma join_cons2 sep x y rest :
  join sep (x :: y :: rest) = x +:+ sep +:+ join sep (y :: rest).
Proof. reflexivity. Qed.

Lemma searchParams_toString_counts (ps : URLSearchParams) :
  count_char "=" (searchParams_toString ps) = length ps /\
  count_char "&" (searchParams_toString ps) = pred (length ps).
Proof.
  unfold searchParams_toString.
  induction ps as [|kv ps [IHe IHa]]; [done|].
  destruct (count_encoded_pair kv) as [He Ha].
  destruct ps as [|kv' ps]; [split; [exact He | exact Ha]|].
  cbn [map length] in *. rewrite join_cons2.
  rewrite !(count_char_app _ (urlencode kv.1 +:+ "=" +:+ urlencode kv.2)).
  rewrite !(count_char_app _ "&"), He, Ha, IHe, IHa. simpl. lia.
Qed.

Lemma buildQueryParams_absent a k v b :
  param_present v = false ->
  buildQueryParams (a ++ (k, v) :: b) = buildQueryParams (a ++ b).
Proof.
  intros Hv. unfold buildQueryParams.
  by rewrite !filter_app, filter_present_cons, Hv.
Qed.

(** X16: [buildQueryParams] writes one [key=value] pair for each entry whose
    value is not [undefined], [null] or the empty string, and nothing for
    the others, wherever they stand; whatever the keys and values contain,
    the result has exactly one [=] per pair and one [&] between two pairs.
    A number, zero included, always counts; a safe integer is written in
    decimal. *)
Theorem buildQueryParams_shape params :
  let written :=
    length (filter (fun kv : string * param => param_present kv.2 = true)
                   params) in
  count_char "=" (buildQueryParams params) = written /\
  count_char "&" (buildQueryParams params) = pred written /\
  (forall a k v b, params = a ++ (k, v) :: b -> param_present v = false ->
                   buildQueryParams params = buildQueryParams (a ++ b)) /\
  (forall k n, length (filter (fun kv : string * param =>
                                  param_present kv.2 = true)
                               [(k, PNumber n)]) = 1%nat) /\
  (forall k n, safe_integer n ->
               buildQueryParams [(k, PNumber n)]
               = urlencode k +:+ "=" +:+ num_to_string n).
Proof.
  intros written.
  destruct (searchParams_toString_counts
              (map (fun kv : string * param => (kv.1, param_to_string kv.2))
                 (filter (fun kv : string * param => param_present kv.2 = true)
                         params))) as [He Ha].
  rewrite length_map in He, Ha.
  split; [exact He|]. split; [exact Ha|]. split.
  - intros a k v b -> Hv. by apply buildQueryParams_absent.
  - split; [intros k n; by rewrite filter_present_cons|].
    intros k n _. unfold buildQueryParams, searchParams_toString.
    rewrite filter_present_cons, filter_nil. cbn [param_present map join fst snd
      param_to_string].
    by rewrite (urlencode_num (num_to_string n))
      by apply num_to_string_chars.
Qed.

Lemma buildQueryParams_shape_witness :
  buildQueryParams
    [("limit", PNumber 0); ("q", PString ""); ("sort", PString "a&b=c")]
  = buildQueryParams [("limit", PNumber 0); ("sort", PString "a&b=c")] /\
  count_char "&" (buildQueryParams
    [("limit", PNumber 0); ("q", PString ""); ("sort", PString "a&b=c")])
  = 1%nat /\
  buildQueryParams [("offset", PNumber 0)] = "offset=0".
Proof.
  destruct (buildQueryParams_shape
    [("limit", PNumber 0); ("q", PString ""); ("sort", PString "a&b=c")])
    as (_ & Hamp & Habsent & _ & Hnum).
  split; [|split].
  - apply (Habsent [("limit", PNumber 0)] "q" (PString "")
                   [("sort", PString "a&b=c")]); reflexivity.
  - exact Hamp.
  - apply (Hnum "offset" 0). unfold safe_integer. lia.
Defined.

(** ** The two forms of the service *)

Lemma plain_cachedFetch_run net url st :
  Plain.cachedFetch net url st = cachedFetch net url st.
Proof.
  unfold Plain.cachedFetch, cachedFetch, getCacheKey, getCached.
  destruct (cache st !! url) as [v|]; [|done].
  destruct (truthy v) eqn:Hv; [|done]. by rewrite Hv.
Qed.

(** X17: the two forms of the service agree on every network and state, in
    what they return or throw and in the state they leave, for the cached
    fetch, the latest firmware, the lookup by identifier and the filter
    values: reading the map directly or through [getCached], with or without
    the logging [catch] blocks, makes no difference. *)
Theorem plain_service_agrees (E : Engine) net st :
  (forall url, Plain.cachedFetch net url st = cachedFetch net url st) /\
  Plain.fetchLatestFirmware net st = fetchLatestFirmware net st /\
  (forall id, Plain.getFirmwareById net id st = getFirmwareById net id st) /\
  Plain.getInitialFilterValues net st = getInitialFilterValues net st.
Proof.
  assert (Hlatest :
    Plain.fetchLatestFirmware net st = fetchLatestFirmware net st).
  { unfold Plain.fetchLatestFirmware.
    by rewrite plain_cachedFetch_run, fetchLatestFirmware_run. }
  split; [intros url; apply plain_cachedFetch_run|].
  split; [exact Hlatest|]. split.
  - intros id. rewrite getFirmwareById_unfold.
    unfold Plain.getFirmwareById, try_catch.
    rewrite plain_cachedFetch_run. fold (firmwareByIdUrl id).
    destruct (cachedFetch net (firmwareByIdUrl id) st) as [[item|e] st'];
      [done|].
    unfold ret, throw. by destruct (includes "404" (err_message e)).
  - unfold Plain.getInitialFilterValues, getInitialFilterValues,
      try_catch, bind.
    by rewrite Hlatest.
Qed.

Lemma searchParams_toString_cons (kv : string * string) rest :
  searchParams_toString (kv :: rest)
  = (urlencode kv.1 +:+ "=" +:+ urlencode kv.2)
    +:+ searchParams_toString_tail rest.
Proof.
  unfold searchParams_toString, searchParams_toString_tail.
  revert kv. induction rest as [|kv' rest IH]; intros kv.
  - cbn [map join concat_strings]. by rewrite append_empty_r.
  - cbn [map]. rewrite join_cons2. cbn [map] in IH. rewrite IH.
    cbn [concat_strings]. by rewrite !append_assoc.
Qed.

Lemma plain_firmwareUrl_eq filters :
  Plain.firmwareUrl filters
  = "https://fw-update.ubnt.com/api/firmware?" +:+
    "limit=" +:+ num_to_string (num_or (limit filters) 50) +:+
    "&offset=" +:+ num_to_string (num_or (offset filters) 0) +:+
    searchParams_toString_tail
      (Plain.append_if "sort" (sort filters) (fun s => s)
       ++ Plain.append_if "filter" (product filters)
            (fun s => "eq~~product~~" +:+ s)
       ++ Plain.append_if "filter" (platform filters)
            (fun s => "eq~~platform~~" +:+ s)
       ++ Plain.append_if "filter" (channel filters)
            (fun s => "eq~~channel~~" +:+ s)).
Proof.
  unfold Plain.firmwareUrl, Plain.firmwareSearchParams.
  cbn [app]. rewrite searchParams_toString_cons.
  unfold searchParams_toString_tail at 1. cbn [map concat_strings fst snd].
  fold (searchParams_toString_tail
          (Plain.append_if "sort" (sort filters) (fun s => s)
           ++ Plain.append_if "filter" (product filters)
                (fun s => "eq~~product~~" +:+ s)
           ++ Plain.append_if "filter" (platform filters)
                (fun s => "eq~~platform~~" +:+ s)
           ++ Plain.append_if "filter" (channel filters)
                (fun s => "eq~~channel~~" +:+ s))).
  rewrite urlencode_limit, urlencode_offset.
  rewrite !(urlencode_num (num_to_string _)) by apply num_to_string_chars.
  rewrite !append_assoc. reflexivity.
Qed.

Lemma plain_append_if_falsy name o text :
  truthy_string o = false -> Plain.append_if name o text = [].
Proof. destruct o as [s|]; simpl; [|done]. by intros ->. Qed.

Lemma eq_condition_truthy name o :
  truthy_string o = true ->
  exists s, eq_condition name o
            = [{| field := name; op := op_eq; value := s |}].
Proof.
  destruct o as [s|]; simpl; [|discriminate]. intros ->. by exists s.
Qed.

Lemma firmwareConditions_nil filters :
  firmwareConditions filters [] = [] <->
  truthy_string (product filters) = false /\
  truthy_string (platform filters) = false /\
  truthy_string (channel filters) = false.
Proof.
  unfold firmwareConditions. split.
  - intros H. simpl in H.
    destruct (truthy_string (product filters)) eqn:Hp.
    { destruct (eq_condition_truthy "product" _ Hp) as [s Hs].
      rewrite Hs in H. discriminate H. }
    rewrite (eq_condition_falsy _ _ Hp) in H. simpl in H.
    destruct (truthy_string (platform filters)) eqn:Hpl.
    { destruct (eq_condition_truthy "platform" _ Hpl) as [s Hs].
      rewrite Hs in H. discriminate H. }
    rewrite (eq_condition_falsy _ _ Hpl) in H. simpl in H.
    destruct (truthy_string (channel filters)) eqn:Hch; [|done].
    destruct (eq_condition_truthy "channel" _ Hch) as [s Hs].
    rewrite Hs in H. discriminate H.
  - intros (Hp & Hpl & Hch). by rewrite !eq_condition_falsy.
Qed.

Lemma sort_only_tail o :
  searchParams_toString_tail (Plain.append_if "sort" o (fun s => s))
  = sort_fragment o.
Proof.
  unfold Plain.append_if, sort_fragment, searchParams_toString_tail.
  destruct o as [s|]; [|done]. destruct (nonempty s); [|done].
  cbn [map concat_strings fst snd]. rewrite urlencode_sort.
  rewrite append_empty_r. reflexivity.
Qed.

(** X18: the two forms of [fetchFirmware] build the same URL, and so make
    the same request and share the cache entry, exactly when none of
    product, platform and channel is set: the one writes the conditions
    first and as they are, the other last and through the serializer. *)
Theorem plain_url_agrees_iff filters :
  Plain.firmwareUrl filters = firmwareUrl filters [] <->
  truthy_string (product filters) = false /\
  truthy_string (platform filters) = false /\
  truthy_string (channel filters) = false.
Proof.
  rewrite <- firmwareConditions_nil, plain_firmwareUrl_eq.
  rewrite firmwareUrl_question, firmwareQueryString_eq.
  change ((baseUrl +:+ firmwareEndpoint) +:+ "?" +:+ ?q)
    with ("https://fw-update.ubnt.com/api/firmware?" +:+ q).
  destruct (firmwareConditions filters []) as [|c cs] eqn:Hcs.
  - split; [intros _; reflexivity|]. intros _. f_equal.
    apply firmwareConditions_nil in Hcs as (Hp & Hpl & Hch).
    rewrite !(plain_append_if_falsy "filter") by done. rewrite !app_nil_r.
    by rewrite sort_only_tail, firmwareParams_eq.
  - split; [|done]. intros H. apply append_inv_head in H.
    unfold buildFilterQuery in H. destruct cs; discriminate H.
Qed.

Lemma plain_url_agrees_iff_witness :
  Plain.firmwareUrl paging_only_filters = firmwareUrl paging_only_filters []
  /\ Plain.firmwareUrl
       {| product := Some "G4 Pro"; platform := None; channel := None;
          version := None; limit := None; offset := None; sort := None |}
     <> firmwareUrl
          {| product := Some "G4 Pro"; platform := None; channel := None;
             version := None; limit := None; offset := None; sort := None |}
          [].
Proof.
  split.
  - apply (plain_url_agrees_iff paging_only_filters). repeat split.
  - intros H. apply plain_url_agrees_iff in H as [Hp _]. discriminate Hp.
Defined.

(** X19: in the form that puts everything through [URLSearchParams], no
    filter value can add to or split the parameters: the URL has exactly one
    [=] per appended parameter and one [&] between two of them, whatever
    product, platform, channel and sort contain. *)
Theorem plain_url_shape filters :
  count_char "=" (Plain.firmwareUrl filters)
  = length (Plain.firmwareSearchParams filters) /\
  count_char "&" (Plain.firmwareUrl filters)
  = pred (length (Plain.firmwareSearchParams filters)) /\
  (2 <= length (Plain.firmwareSearchParams filters) <= 6)%nat.
Proof.
  unfold Plain.firmwareUrl.
  rewrite !count_char_app.
  destruct (searchParams_toString_counts (Plain.firmwareSearchParams filters))
    as [-> ->].
  change (count_char "=" baseUrl) with 0%nat.
  change (count_char "&" baseUrl) with 0%nat.
  change (count_char "=" firmwareEndpoint) with 0%nat.
  change (count_char "&" firmwareEndpoint) with 0%nat.
  change (count_char "=" "?") with 0%nat.
  change (count_char "&" "?") with 0%nat.
  split; [done|]. split; [done|].
  unfold Plain.firmwareSearchParams, Plain.append_if.
  rewrite !length_app.
  destruct (sort filters) as [s|]; [destruct (nonempty s)|];
    (destruct (product filters) as [p|]; [destruct (nonempty p)|]);
    (destruct (platform filters) as [q|]; [destruct (nonempty q)|]);
    (destruct (channel filters) as [r|]; [destruct (nonempty r)|]);
    simpl; lia.
Qed.

(** ** More on presentation *)

Lemma formatFileSize_positive bytes :
  0 < bytes ->
  let i := Z.log2 bytes / 10 in
  1024 ^ i <= bytes < 1024 * 1024 ^ i /\
  formatFileSize bytes
  = toFixed1 bytes (1024 ^ i) +:+ " " +:+
    match sizes !! Z.to_nat i with
    | Some unit_label => unit_label
    | None => "undefined"
    end.
Proof.
  intros Hpos i. split.
  - destruct (Z.log2_spec bytes Hpos) as [Hlo Hhi].
    assert (Hl : 0 <= Z.log2 bytes) by apply Z.log2_nonneg.
    assert (Hi : 0 <= i) by (apply Z.div_pos; lia).
    assert (Hdiv : 10 * i <= Z.log2 bytes < 10 * i + 10).
    { unfold i. pose proof (Z.mod_pos_bound (Z.log2 bytes) 10).
      pose proof (Z.div_mod (Z.log2 bytes) 10). lia. }
    replace (1024 ^ i) with (2 ^ (10 * i))
      by (rewrite Z.pow_mul_r by lia; reflexivity).
    split.
    + etransitivity; [|exact Hlo]. apply Z.pow_le_mono_r; lia.
    + replace (1024 * 2 ^ (10 * i)) with (2 ^ (10 * i + 10))
        by (rewrite Z.pow_add_r by lia; reflexivity || lia).
      eapply Z.lt_le_trans; [exact Hhi|]. apply Z.pow_le_mono_r; lia.
  - unfold formatFileSize.
    destruct (bytes =? 0) eqn:H0; [lia|].
    destruct (bytes <? 0) eqn:Hneg; [lia|]. reflexivity.
Qed.

(** X20: for every positive count the number shown lies between 1.0 and
    1024.0: it is [n / 10], a point and [n mod 10] for an [n] from 10 to
    10240. The upper end is reached: a count just below the next unit rounds
    up to 1024.0 of the unit below. *)
Theorem formatFileSize_number_range bytes :
  0 < bytes ->
  exists n unit_label,
    10 <= n <= 10240 /\
    formatFileSize bytes
    = num_to_string (n / 10) +:+ "." +:+ num_to_string (n mod 10)
      +:+ " " +:+ unit_label.
Proof.
  intros Hpos.
  destruct (formatFileSize_positive bytes Hpos) as [[Hlo Hhi] ->].
  set (p := 1024 ^ (Z.log2 bytes / 10)) in *.
  assert (Hp : 0 < p) by (apply Z.pow_pos_nonneg; [lia|apply Z.div_pos; [apply Z.log2_nonneg|lia]]).
  exists ((20 * bytes + p) / (2 * p)). eexists. split; [|unfold toFixed1; by rewrite !append_assoc].
  split.
  - apply Z.div_le_lower_bound; lia.
  - assert ((20 * bytes + p) / (2 * p) < 10241); [|lia].
    apply Z.div_lt_upper_bound; lia.
Qed.

Lemma formatFileSize_number_range_witness :
  exists n unit_label,
    10 <= n <= 10240 /\
    formatFileSize 1048575
    = num_to_string (n / 10) +:+ "." +:+ num_to_string (n mod 10)
      +:+ " " +:+ unit_label.
Proof. apply (formatFileSize_number_range 1048575). lia. Defined.

(** X21: a count below 1024 is shown as that many whole bytes: the count
    itself, [.0] and the unit [B]. *)
Theorem formatFileSize_whole_bytes bytes :
  0 < bytes < 1024 ->
  formatFileSize bytes = num_to_string bytes +:+ ".0 B".
Proof.
  intros [Hpos Hlt].
  destruct (formatFileSize_positive bytes Hpos) as [_ ->].
  assert (Hlog : 0 <= Z.log2 bytes < 10).
  { split; [apply Z.log2_nonneg|]. by apply Z.log2_lt_pow2. }
  rewrite (Z.div_small (Z.log2 bytes) 10) by lia.
  unfold toFixed1. change (1024 ^ 0) with 1.
  replace ((20 * bytes + 1) / (2 * 1)) with (10 * bytes).
  - rewrite (Z.mul_comm 10), Z.div_mul, Z.mod_mul by lia.
    by rewrite !append_assoc.
  - apply Z.div_unique with (r := 1); lia.
Qed.

Lemma formatFileSize_whole_bytes_witness : formatFileSize 512 = "512.0 B".
Proof. apply (formatFileSize_whole_bytes 512). lia. Defined.

(** X22: from 1024^4 bytes on, every count is shown with [undefined] where
    the unit belongs, after a number between 1.0 and 1024.0: the table of
    units ends at [GB]. *)
Theorem formatFileSize_no_unit_from_terabyte bytes :
  1024 ^ 4 <= bytes ->
  exists n,
    10 <= n <= 10240 /\
    formatFileSize bytes
    = num_to_string (n / 10) +:+ "." +:+ num_to_string (n mod 10)
      +:+ " undefined".
Proof.
  intros Hge.
  destruct (formatFileSize_positive bytes) as [[Hlo Hhi] ->]; [lia|].
  assert (Hlog : 40 <= Z.log2 bytes).
  { change 40 with (Z.log2 (1024 ^ 4)). by apply Z.log2_le_mono. }
  assert (Hi : 4 <= Z.log2 bytes / 10).
  { apply Z.div_le_lower_bound; lia. }
  rewrite (lookup_ge_None_2 sizes) by (simpl; lia).
  set (p := 1024 ^ (Z.log2 bytes / 10)) in *.
  assert (Hp : 0 < p) by (apply Z.pow_pos_nonneg; lia).
  exists ((20 * bytes + p) / (2 * p)). split.
  - split.
    + apply Z.div_le_lower_bound; lia.
    + assert ((20 * bytes + p) / (2 * p) < 10241); [|lia].
      apply Z.div_lt_upper_bound; lia.
  - unfold toFixed1. by rewrite !append_assoc.
Qed.

Lemma formatFileSize_no_unit_from_terabyte_witness :
  exists n,
    10 <= n <= 10240 /\
    formatFileSize 5000000000000
    = num_to_string (n / 10) +:+ "." +:+ num_to_string (n mod 10)
      +:+ " undefined".
Proof. apply (formatFileSize_no_unit_from_terabyte 5000000000000). lia. Defined.

(** ** The download link *)



(** An item in wire form gives its [data] link. *)
Lemma getDownloadUrl_item fw :
  getDownloadUrl (item_to_json fw) = Ok (str (fw_data_href fw)).
Proof. reflexivity. Qed.

(** ** The search view *)

(** X24: the table's sort binding and [handleSort] are inverse to each
    other: handing [handleSort] the binding of a state gives a state with
    that same binding, and the binding after [handleSort] is the first
    element of what the table sent (nothing when its key is empty); the
    selections are never touched. After [clearFilters] the binding is the
    creation date, newest first. *)
Theorem handleSort_round_trip s s' sent :
  View.tableSortBy (View.handleSort (View.tableSortBy s) s')
  = View.tableSortBy s /\
  View.tableSortBy (View.handleSort sent s')
  = match sent with
    | [] => []
    | first :: _ => if nonempty (View.key first) then [first] else []
    end /\
  View.selectedProductType (View.handleSort sent s')
  = View.selectedProductType s' /\
  View.selectedPlatform (View.handleSort sent s') = View.selectedPlatform s' /\
  View.tableSortBy (View.clearFilters s)
  = [{| View.key := "created"; View.order := View.desc |}].
Proof.
  split.
  - unfold View.tableSortBy at 2 3.
    destruct (nonempty (View.sortBy s)) eqn:Hs; [|done].
    unfold View.handleSort, View.tableSortBy. simpl. by rewrite Hs.
  - split; [|by destruct sent].
    destruct sent as [|[k o] rest]; [done|].
    unfold View.handleSort, View.tableSortBy. simpl. by destruct (nonempty k).
Qed.
